(** * The envelope-encryption protocol of the file-sharing client

    A shallow embedding of [src/lib/crypto.ts], [src/lib/keyStorage.ts] and
    of the send and receive handlers of [src/components/SendFile.tsx] and
    [src/components/ReceiveFiles.tsx], with the properties the protocol
    description states about them.

    The code delegates every cryptographic primitive to the browser
    ([window.crypto.subtle], [btoa]/[atob], [JSON.parse], IndexedDB).  The
    text encodings ([btoa]/[atob]) are modelled in full after the WHATWG
    definition of forgiving base64; the cryptographic primitives are the
    fields of a [Provider] record, and the laws a theorem needs of them are
    hypotheses of that theorem. *)

From Stdlib Require Import NArith List Lia Bool.
From Stdlib.Strings Require Import Byte.
From stdpp Require Import gmap strings list.

Local Open Scope N_scope.

(** ** JavaScript data *)

(** A JavaScript string is a sequence of UTF-16 code units. *)
Definition jsstring : Type := list N.

(** A string literal of the source, as code units. *)
Definition js (s : string) : jsstring :=
  List.map Ascii.N_of_ascii (String.list_ascii_of_string s).

(** The bytes of an [ArrayBuffer] (or of a [Uint8Array] viewing all of it). *)
Definition ArrayBuffer : Type := list byte.

(** What a [throw] (or a rejected promise) carries. *)
Inductive exn : Type :=
| Error (message : string)        (* [new Error(message)], thrown by the code *)
| DOMException (name : string)    (* raised by the platform *)
| SyntaxError                     (* [JSON.parse] on malformed text *)
| TypeError                       (* property access on null or undefined *)
| RangeError.                     (* typed-array write out of bounds *)

(** The completion of an expression: a value or a thrown exception. *)
Inductive completion (A : Type) : Type :=
| Return (a : A)
| Throw (e : exn).
Arguments Return {A} a.
Arguments Throw {A} e.

Definition bind {A B} (c : completion A) (k : A -> completion B) : completion B :=
  match c with
  | Return a => k a
  | Throw e => Throw e
  end.

Notation "'do' x <- c 'in' k" := (bind c (fun x => k))
  (at level 10, x name, c at level 100, k at level 200).

(** [try { body } catch { handler }] *)
Definition try_catch {A} (body : completion A) (handler : exn -> completion A)
  : completion A :=
  match body with
  | Return a => Return a
  | Throw e => handler e
  end.

Definition returns {A} (c : completion A) : Prop := exists a, c = Return a.
Definition throws {A} (c : completion A) : Prop := exists e, c = Throw e.

(** [for (const x of xs) { acc = body(acc, x) }], where the body may throw. *)
Fixpoint for_of {A S} (body : S -> A -> completion S) (xs : list A) (acc : S)
  : completion S :=
  match xs with
  | [] => Return acc
  | x :: rest => do acc' <- body acc x in for_of body rest acc'
  end.

(** Storing a number into a [Uint8Array] element keeps it modulo 256. *)
Definition to_uint8 (c : N) : byte :=
  match Byte.of_N (c mod 256) with
  | Some b => b
  | None => x00
  end.

(** [new Uint8Array(n)]: [n] zero bytes. *)
Definition Uint8Array_new (n : nat) : list byte := replicate n x00.

(** [dst.set(src, offset)] on typed arrays. *)
Definition Uint8Array_set (dst src : list byte) (offset : nat)
  : completion (list byte) :=
  if (offset + length src <=? length dst)%nat
  then Return (take offset dst ++ src ++ drop (offset + length src) dst)
  else Throw RangeError.

(** The relative index of [slice]: negative counts from the end, and the
    result is clamped to the array. *)
Definition relative_index (len : nat) (i : Z) : nat :=
  if (i <? 0)%Z then Z.to_nat (Z.max (Z.of_nat len + i) 0)
  else Z.to_nat (Z.min i (Z.of_nat len)).

(** [a.slice(start, end)] on typed arrays (a copy). *)
Definition Uint8Array_slice (a : list byte) (start : Z) (end_ : option Z)
  : list byte :=
  let len := length a in
  let k := relative_index len start in
  let final := match end_ with
               | Some e => relative_index len e
               | None => len
               end in
  take (final - k) (drop k a).

(** ** The platform's [btoa] and [atob] (WHATWG forgiving base64) *)

Module Base64.

(** The base64 alphabet: the code unit of a 6-bit value. *)
Definition sextet_char (i : N) : N :=
  if i <? 26 then 65 + i
  else if i <? 52 then 97 + (i - 26)
  else if i <? 62 then 48 + (i - 52)
  else if i =? 62 then 43
  else 47.

(** The 6-bit value of a code unit of the alphabet. *)
Definition char_sextet (c : N) : option N :=
  if (65 <=? c) && (c <=? 90) then Some (c - 65)
  else if (97 <=? c) && (c <=? 122) then Some (c - 97 + 26)
  else if (48 <=? c) && (c <=? 57) then Some (c - 48 + 52)
  else if c =? 43 then Some 62
  else if c =? 47 then Some 63
  else None.

(** Three bytes give four characters; a tail of one or two bytes gives two
    or three characters, its unused low bits zero. *)
Fixpoint encode_body (s : list N) : jsstring :=
  match s with
  | [] => []
  | [a] => [sextet_char (a / 4); sextet_char ((a mod 4) * 16)]
  | [a; b] =>
      [sextet_char (a / 4);
       sextet_char ((a mod 4) * 16 + b / 16);
       sextet_char ((b mod 16) * 4)]
  | a :: b :: c :: rest =>
      sextet_char (a / 4)
      :: sextet_char ((a mod 4) * 16 + b / 16)
      :: sextet_char ((b mod 16) * 4 + c / 64)
      :: sextet_char (c mod 64)
      :: encode_body rest
  end.

(** One byte left over is padded with two [=], two bytes with one. *)
Fixpoint padding (s : list N) : jsstring :=
  match s with
  | [] => []
  | [_] => [61; 61]
  | [_; _] => [61]
  | _ :: _ :: _ :: rest => padding rest
  end.

(** [btoa(s)]: throws when a code unit is above U+00FF. *)
Definition btoa (s : jsstring) : completion jsstring :=
  if forallb (fun c => c <? 256) s
  then Return (encode_body s ++ padding s)
  else Throw (DOMException "InvalidCharacterError").

Definition is_ascii_whitespace (c : N) : bool :=
  (c =? 9) || (c =? 10) || (c =? 12) || (c =? 13) || (c =? 32).

Definition ends_with_equals (reversed : jsstring) : bool :=
  match reversed with
  | c :: _ => c =? 61
  | [] => false
  end.

(** When the length is a multiple of four, one or two trailing [=] go. *)
Definition strip_padding (data : jsstring) : jsstring :=
  if (length data mod 4 =? 0)%nat then
    let r := rev data in
    if ends_with_equals r then
      if ends_with_equals (tail r) then rev (tail (tail r)) else rev (tail r)
    else data
  else data.

Fixpoint sextets (data : jsstring) : option (list N) :=
  match data with
  | [] => Some []
  | c :: rest =>
      match char_sextet c, sextets rest with
      | Some v, Some vs => Some (v :: vs)
      | _, _ => None
      end
  end.

(** Four sextets give three bytes; of a tail of two (three) sextets the
    last four (two) bits are dropped. *)
Fixpoint decode_body (v : list N) : jsstring :=
  match v with
  | [] => []
  | [_] => []
  | [p; q] => [(p * 4 + q / 16) mod 256]
  | [p; q; r] => [(p * 4 + q / 16) mod 256; ((q mod 16) * 16 + r / 4) mod 256]
  | p :: q :: r :: t :: rest =>
      (p * 4 + q / 16) mod 256
      :: ((q mod 16) * 16 + r / 4) mod 256
      :: ((r mod 4) * 64 + t) mod 256
      :: decode_body rest
  end.

(** [atob(s)] *)
Definition atob (s : jsstring) : completion jsstring :=
  let data := List.filter (fun c => negb (is_ascii_whitespace c)) s in
  let data := strip_padding data in
  if (length data mod 4 =? 1)%nat
  then Throw (DOMException "InvalidCharacterError")
  else match sextets data with
       | Some v => Return (decode_body v)
       | None => Throw (DOMException "InvalidCharacterError")
       end.

End Base64.

(** ** [src/lib/crypto.ts]: the buffer utilities *)

(** [arrayBufferToBase64]: the loop appends one character per byte. *)
Definition arrayBufferToBase64 (buffer : ArrayBuffer) : completion jsstring :=
  let bytes := buffer in
  let binary :=
    fold_left (fun binary i => binary ++ [Byte.to_N (nth i bytes x00)])
              (seq 0 (length bytes)) [] in
  Base64.btoa binary.

(** [base64ToArrayBuffer]: the loop fills a fresh array index by index. *)
Definition base64ToArrayBuffer (base64 : jsstring) : completion ArrayBuffer :=
  do binary <- Base64.atob base64 in
  let bytes :=
    fold_left (fun bytes i => <[i := to_uint8 (nth i binary 0)]> bytes)
              (seq 0 (length binary)) (Uint8Array_new (length binary)) in
  Return bytes.

(** [concatenateBuffers(...buffers)] *)
Definition concatenateBuffers (buffers : list ArrayBuffer) : completion ArrayBuffer :=
  let totalLength :=
    fold_left (fun sum buf => (sum + length buf)%nat) buffers 0%nat in
  let result := Uint8Array_new totalLength in
  do st <- for_of (fun '(result, offset) buffer =>
                   do result' <- Uint8Array_set result buffer offset in
                   Return (result', (offset + length buffer)%nat))
                buffers (result, 0%nat) in
  Return (fst st).

(** ** The platform's [window.crypto]

    The interface of the Web Cryptography API as far as [crypto.ts] uses it.
    A [Provider] supplies the primitives; the checks that [SubtleCrypto]
    itself makes on a key's algorithm, type, usages and extractability, and
    on formats and lengths, are written out below.  Random choices (fresh
    keys, nonces, the OAEP seed, the PSS salt) are those of the provider: a
    provider is the platform at one outcome of its random draws. *)

Inductive AlgorithmName : Type := RSA_OAEP | RSA_PSS | AES_GCM.
Inductive KeyType : Type := public | private | secret.
Inductive KeyUsage : Type := encrypt | decrypt | sign | verify.
Inductive KeyFormat : Type := spki | pkcs8 | raw.

Global Instance AlgorithmName_eq_dec : EqDecision AlgorithmName.
Proof. solve_decision. Defined.
Global Instance KeyType_eq_dec : EqDecision KeyType.
Proof. solve_decision. Defined.
Global Instance KeyUsage_eq_dec : EqDecision KeyUsage.
Proof. solve_decision. Defined.

Record Provider : Type := {
  rsa_public : Type;
  rsa_private : Type;
  (* whether a private key is the one generated with a public key *)
  rsa_matches : rsa_public -> rsa_private -> bool;
  (* key generation: RSA, 2048 bits, exponent 65537 *)
  rsa_oaep_keygen : rsa_public * rsa_private;
  rsa_pss_keygen : rsa_public * rsa_private;
  aes256_keygen : list byte;
  (* [crypto.getRandomValues(new Uint8Array(n))] *)
  random_values : nat -> list byte;
  (* SubjectPublicKeyInfo and PKCS#8 encodings of RSA keys; both carry the
     [rsaEncryption] identifier whatever the key was generated for *)
  spki_encode : rsa_public -> list byte;
  spki_decode : list byte -> option rsa_public;
  pkcs8_encode : rsa_private -> list byte;
  pkcs8_decode : list byte -> option rsa_private;
  (* RSA-OAEP with SHA-256; [None] is a failed operation *)
  oaep_encrypt : rsa_public -> list byte -> option (list byte);
  oaep_decrypt : rsa_private -> list byte -> option (list byte);
  (* RSASSA-PSS with SHA-256, salt length as given *)
  pss_sign : rsa_private -> nat -> list byte -> list byte;
  pss_verify : rsa_public -> nat -> list byte -> list byte -> bool;
  (* AES-GCM, 128-bit tag appended to the ciphertext *)
  gcm_encrypt : list byte -> list byte -> list byte -> list byte;
  gcm_decrypt : list byte -> list byte -> list byte -> option (list byte);
  sha256 : list byte -> list byte
}.

Inductive KeyMaterial (P : Provider) : Type :=
| RsaPublic (k : rsa_public P)
| RsaPrivate (k : rsa_private P)
| AesRaw (k : list byte).
Arguments RsaPublic {P} k.
Arguments RsaPrivate {P} k.
Arguments AesRaw {P} k.

(** A [CryptoKey] handle. *)
Record CryptoKey (P : Provider) : Type := {
  algorithm : AlgorithmName;
  extractable : bool;
  usages : list KeyUsage;
  material : KeyMaterial P
}.
Arguments algorithm {P} c.
Arguments extractable {P} c.
Arguments usages {P} c.
Arguments material {P} c.
Arguments Build_CryptoKey {P} algorithm extractable usages material.

Definition key_type {P} (k : CryptoKey P) : KeyType :=
  match material k with
  | RsaPublic _ => public
  | RsaPrivate _ => private
  | AesRaw _ => secret
  end.

Record CryptoKeyPair (P : Provider) : Type := {
  publicKey : CryptoKey P;
  privateKey : CryptoKey P
}.
Arguments publicKey {P} c.
Arguments privateKey {P} c.
Arguments Build_CryptoKeyPair {P} publicKey privateKey.

(** The parameters of [encrypt]/[decrypt] and of [sign]/[verify]. *)
Inductive CipherParams : Type :=
| RsaOaepParams
| AesGcmParams (iv : list byte).

Record RsaPssParams : Type := { saltLength : nat }.

Module Subtle.
Section WithProvider.
Context {P : Provider}.

Definition has_usage (k : CryptoKey P) (u : KeyUsage) : bool :=
  bool_decide (u ∈ usages k).

Definition usages_within (us allowed : list KeyUsage) : bool :=
  forallb (fun u => bool_decide (u ∈ allowed)) us.

(** [generateKey] for the two RSA algorithms: the public key takes the
    public usages asked for, the private key the private ones; a public key
    is always extractable. *)
Definition generateKey_RSA (name : AlgorithmName) (ext : bool)
  (us : list KeyUsage) : completion (CryptoKeyPair P) :=
  match name with
  | RSA_OAEP =>
      if usages_within us [encrypt; decrypt] then
        let '(pk, sk) := rsa_oaep_keygen P in
        let private_usages := List.filter (fun u => bool_decide (u = decrypt)) us in
        match private_usages with
        | [] => Throw (DOMException "SyntaxError")
        | _ =>
            Return {| publicKey := Build_CryptoKey RSA_OAEP true
                          (List.filter (fun u => bool_decide (u = encrypt)) us)
                          (RsaPublic pk);
                      privateKey := Build_CryptoKey RSA_OAEP ext private_usages
                          (RsaPrivate sk) |}
        end
      else Throw (DOMException "SyntaxError")
  | RSA_PSS =>
      if usages_within us [sign; verify] then
        let '(pk, sk) := rsa_pss_keygen P in
        let private_usages := List.filter (fun u => bool_decide (u = sign)) us in
        match private_usages with
        | [] => Throw (DOMException "SyntaxError")
        | _ =>
            Return {| publicKey := Build_CryptoKey RSA_PSS true
                          (List.filter (fun u => bool_decide (u = verify)) us)
                          (RsaPublic pk);
                      privateKey := Build_CryptoKey RSA_PSS ext private_usages
                          (RsaPrivate sk) |}
        end
      else Throw (DOMException "SyntaxError")
  | AES_GCM => Throw (DOMException "NotSupportedError")
  end.

(** [generateKey({name: 'AES-GCM', length: 256}, ext, usages)] *)
Definition generateKey_AES256 (ext : bool) (us : list KeyUsage)
  : completion (CryptoKey P) :=
  if usages_within us [encrypt; decrypt] then
    match us with
    | [] => Throw (DOMException "SyntaxError")
    | _ => Return (Build_CryptoKey AES_GCM ext us (AesRaw (aes256_keygen P)))
    end
  else Throw (DOMException "SyntaxError").

(** [exportKey(format, key)] *)
Definition exportKey (format : KeyFormat) (key : CryptoKey P)
  : completion ArrayBuffer :=
  if negb (extractable key) then Throw (DOMException "InvalidAccessError")
  else match format, material key with
       | spki, RsaPublic pk => Return (spki_encode P pk)
       | pkcs8, RsaPrivate sk => Return (pkcs8_encode P sk)
       | raw, AesRaw k => Return k
       | spki, AesRaw _ | pkcs8, AesRaw _ => Throw (DOMException "NotSupportedError")
       | raw, _ => Throw (DOMException "NotSupportedError")
       | _, _ => Throw (DOMException "InvalidAccessError")
       end.

(** [importKey(format, keyData, {name, ...}, ext, usages)].  Usages the
    algorithm does not allow for the format give SyntaxError, data that does
    not parse DataError.  An RSA key is accepted under either RSA algorithm:
    for both, the encoding must carry the [rsaEncryption] identifier, the one
    [exportKey] writes for both, so the encoding names no purpose. *)
Definition importKey (format : KeyFormat) (keyData : ArrayBuffer)
  (name : AlgorithmName) (ext : bool) (us : list KeyUsage)
  : completion (CryptoKey P) :=
  match format, name with
  | spki, RSA_OAEP | spki, RSA_PSS =>
      let allowed := match name with RSA_OAEP => [encrypt] | _ => [verify] end in
      if usages_within us allowed then
        match spki_decode P keyData with
        | Some pk => Return (Build_CryptoKey name ext us (RsaPublic pk))
        | None => Throw (DOMException "DataError")
        end
      else Throw (DOMException "SyntaxError")
  | pkcs8, RSA_OAEP | pkcs8, RSA_PSS =>
      let allowed := match name with RSA_OAEP => [decrypt] | _ => [sign] end in
      if usages_within us allowed then
        match pkcs8_decode P keyData with
        | Some sk =>
            match us with
            | [] => Throw (DOMException "SyntaxError")
            | _ => Return (Build_CryptoKey name ext us (RsaPrivate sk))
            end
        | None => Throw (DOMException "DataError")
        end
      else Throw (DOMException "SyntaxError")
  | raw, AES_GCM =>
      if usages_within us [encrypt; decrypt] then
        let bits := (8 * length keyData)%nat in
        if bool_decide (bits = 128 \/ bits = 192 \/ bits = 256)%nat then
          match us with
          | [] => Throw (DOMException "SyntaxError")
          | _ => Return (Build_CryptoKey AES_GCM ext us (AesRaw keyData))
          end
        else Throw (DOMException "DataError")
      else Throw (DOMException "SyntaxError")
  | _, _ => Throw (DOMException "NotSupportedError")
  end.

Definition params_name (a : CipherParams) : AlgorithmName :=
  match a with
  | RsaOaepParams => RSA_OAEP
  | AesGcmParams _ => AES_GCM
  end.

(** [encrypt(params, key, data)]: InvalidAccessError unless the key is of
    the algorithm named and has the [encrypt] usage; OperationError when the
    primitive fails. *)
Definition encrypt_ (a : CipherParams) (key : CryptoKey P) (data : ArrayBuffer)
  : completion ArrayBuffer :=
  if negb (bool_decide (algorithm key = params_name a))
  then Throw (DOMException "InvalidAccessError")
  else if negb (has_usage key encrypt)
  then Throw (DOMException "InvalidAccessError")
  else match a, material key with
       | RsaOaepParams, RsaPublic pk =>
           match oaep_encrypt P pk data with
           | Some c => Return c
           | None => Throw (DOMException "OperationError")
           end
       | AesGcmParams iv, AesRaw k => Return (gcm_encrypt P k iv data)
       | _, _ => Throw (DOMException "InvalidAccessError")
       end.

(** [decrypt(params, key, data)]: as [encrypt], with the [decrypt] usage;
    AES-GCM input shorter than the tag, a tag that does not authenticate and
    a failed RSA-OAEP decryption all give OperationError. *)
Definition decrypt_ (a : CipherParams) (key : CryptoKey P) (data : ArrayBuffer)
  : completion ArrayBuffer :=
  if negb (bool_decide (algorithm key = params_name a))
  then Throw (DOMException "InvalidAccessError")
  else if negb (has_usage key decrypt)
  then Throw (DOMException "InvalidAccessError")
  else match a, material key with
       | RsaOaepParams, RsaPrivate sk =>
           match oaep_decrypt P sk data with
           | Some m => Return m
           | None => Throw (DOMException "OperationError")
           end
       | AesGcmParams iv, AesRaw k =>
           if (length data <? 16)%nat then Throw (DOMException "OperationError")
           else match gcm_decrypt P k iv data with
                | Some m => Return m
                | None => Throw (DOMException "OperationError")
                end
       | _, _ => Throw (DOMException "InvalidAccessError")
       end.

(** [sign({name: 'RSA-PSS', saltLength}, key, data)] *)
Definition sign_ (a : RsaPssParams) (key : CryptoKey P) (data : ArrayBuffer)
  : completion ArrayBuffer :=
  if negb (bool_decide (algorithm key = RSA_PSS))
  then Throw (DOMException "InvalidAccessError")
  else if negb (has_usage key sign)
  then Throw (DOMException "InvalidAccessError")
  else match material key with
       | RsaPrivate sk => Return (pss_sign P sk (saltLength a) data)
       | _ => Throw (DOMException "InvalidAccessError")
       end.

(** [verify({name: 'RSA-PSS', saltLength}, key, signature, data)]: rejected
    with InvalidAccessError when the key is of another algorithm, lacks the
    [verify] usage or is not public; otherwise the promise resolves to the
    boolean outcome of the verification, also for a signature of the wrong
    length. *)
Definition verify_ (a : RsaPssParams) (key : CryptoKey P)
  (signature data : ArrayBuffer) : completion bool :=
  if negb (bool_decide (algorithm key = RSA_PSS))
  then Throw (DOMException "InvalidAccessError")
  else if negb (has_usage key verify)
  then Throw (DOMException "InvalidAccessError")
  else match material key with
       | RsaPublic pk => Return (pss_verify P pk (saltLength a) signature data)
       | _ => Throw (DOMException "InvalidAccessError")
       end.

(** [digest('SHA-256', data)] *)
Definition digest_SHA256 (data : ArrayBuffer) : completion ArrayBuffer :=
  Return (sha256 P data).

End WithProvider.
End Subtle.

(** ** [JSON.parse] and the values it yields *)

#[local] Set Warnings "-register-all".
Inductive JsValue : Type :=
| JUndefined
| JNull
| JBool (b : bool)
| JNumber (text : jsstring)     (* a number, held as the text of its ToString *)
| JString (s : jsstring)
| JArray (items : list JsValue)
| JObject (fields : list (jsstring * JsValue)).

Definition jsstring_eqb (a b : jsstring) : bool := bool_decide (a = b).

Fixpoint own_property (fields : list (jsstring * JsValue)) (name : jsstring)
  : JsValue :=
  match fields with
  | [] => JUndefined
  | (k, v) :: rest => if jsstring_eqb k name then v else own_property rest name
  end.

(** [value.name], for a [name] that no prototype defines (such as
    [encryption] and [signing]): reading a property of [null] or [undefined]
    throws, a missing property reads as [undefined]. *)
Definition get_property (value : JsValue) (name : jsstring) : completion JsValue :=
  match value with
  | JUndefined | JNull => Throw TypeError
  | JObject fields => Return (own_property fields name)
  | _ => Return JUndefined
  end.

(** [ToString], which [atob] applies to its argument. *)
Fixpoint ToString (v : JsValue) : jsstring :=
  match v with
  | JUndefined => js "undefined"
  | JNull => js "null"
  | JBool true => js "true"
  | JBool false => js "false"
  | JNumber text => text
  | JString s => s
  | JArray items =>
      (fix join (l : list JsValue) : jsstring :=
         match l with
         | [] => []
         | x :: rest =>
             let sx := match x with
                       | JUndefined | JNull => []
                       | _ => ToString x
                       end in
             match rest with
             | [] => sx
             | _ => sx ++ js "," ++ join rest
             end
         end) items
  | JObject _ => js "[object Object]"
  end.

(** The platform's parser: [JSON.parse(text)] returns a value or throws. *)
Definition JSON_parser : Type := jsstring -> completion JsValue.

(** ** [src/lib/crypto.ts]: keys, encryption, signatures *)

Section Crypto.
Context {P : Provider}.

Definition generateKeyPair : completion (CryptoKeyPair P) :=
  Subtle.generateKey_RSA RSA_OAEP true [encrypt; decrypt].

Definition generateSigningKeyPair : completion (CryptoKeyPair P) :=
  Subtle.generateKey_RSA RSA_PSS true [sign; verify].

Definition exportPublicKey (key : CryptoKey P) : completion jsstring :=
  do exported <- Subtle.exportKey spki key in
  arrayBufferToBase64 exported.

Definition exportPrivateKey (key : CryptoKey P) : completion jsstring :=
  do exported <- Subtle.exportKey pkcs8 key in
  arrayBufferToBase64 exported.

Definition importPublicKey (base64Key : jsstring) : completion (CryptoKey P) :=
  do keyData <- base64ToArrayBuffer base64Key in
  Subtle.importKey spki keyData RSA_OAEP true [encrypt].

Definition importPrivateKey (base64Key : jsstring) : completion (CryptoKey P) :=
  do keyData <- base64ToArrayBuffer base64Key in
  Subtle.importKey pkcs8 keyData RSA_OAEP true [decrypt].

Definition importSigningPublicKey (base64Key : jsstring) : completion (CryptoKey P) :=
  do keyData <- base64ToArrayBuffer base64Key in
  Subtle.importKey spki keyData RSA_PSS true [verify].

Definition importSigningPrivateKey (base64Key : jsstring) : completion (CryptoKey P) :=
  do keyData <- base64ToArrayBuffer base64Key in
  Subtle.importKey pkcs8 keyData RSA_PSS true [sign].

Definition generateAESKey : completion (CryptoKey P) :=
  Subtle.generateKey_AES256 true [encrypt; decrypt].

Definition generateNonce : list byte := random_values P 12.

Definition encryptFile (file : ArrayBuffer) (aesKey : CryptoKey P)
  (nonce : list byte) : completion ArrayBuffer :=
  Subtle.encrypt_ (AesGcmParams nonce) aesKey file.

Definition decryptFile (encryptedData : ArrayBuffer) (aesKey : CryptoKey P)
  (nonce : list byte) : completion ArrayBuffer :=
  Subtle.decrypt_ (AesGcmParams nonce) aesKey encryptedData.

Definition encryptAESKey (aesKey receiverPublicKey : CryptoKey P)
  : completion ArrayBuffer :=
  do rawKey <- Subtle.exportKey raw aesKey in
  Subtle.encrypt_ RsaOaepParams receiverPublicKey rawKey.

Definition decryptAESKey (encryptedAESKey : ArrayBuffer) (privateKey : CryptoKey P)
  : completion (CryptoKey P) :=
  do rawKey <- Subtle.decrypt_ RsaOaepParams privateKey encryptedAESKey in
  Subtle.importKey raw rawKey AES_GCM true [decrypt].

Definition signData (data : ArrayBuffer) (privateKey : CryptoKey P)
  : completion ArrayBuffer :=
  Subtle.sign_ {| saltLength := 32 |} privateKey data.

Definition verifySignature (signature data : ArrayBuffer) (publicKey : CryptoKey P)
  : completion bool :=
  Subtle.verify_ {| saltLength := 32 |} publicKey signature data.

Definition hashData (data : ArrayBuffer) : completion ArrayBuffer :=
  Subtle.digest_SHA256 (P := P) data.

End Crypto.

(** ** [src/lib/keyStorage.ts]: the local key store *)

Record StoredKeys : Type := {
  encryptionPublicKey : jsstring;
  encryptionPrivateKey : jsstring;
  signingPublicKey : jsstring;
  signingPrivateKey : jsstring
}.

(** The object store [keys] of the database: values by key. *)
Abbreviation ObjectStore := (gmap string jsstring).

(** [store.put(value, key)] four times. *)
Definition storeKeys (keys : StoredKeys) (store : ObjectStore) : ObjectStore :=
  <["signingPrivateKey" := signingPrivateKey keys]>
    (<["signingPublicKey" := signingPublicKey keys]>
      (<["encryptionPrivateKey" := encryptionPrivateKey keys]>
        (<["encryptionPublicKey" := encryptionPublicKey keys]> store))).

(** [store.clear()] *)
Definition clearKeys (store : ObjectStore) : ObjectStore := ∅.

(** The truth value of [request.result]: [undefined] (no entry) and the
    empty string are false. *)
Definition truthy (result : option jsstring) : bool :=
  match result with
  | None => false
  | Some [] => false
  | Some (_ :: _) => true
  end.

(** What [getKeys] resolves to once the read transaction completes;
    [None] is [null]. *)
Definition getKeys_oncomplete (store : ObjectStore) : option StoredKeys :=
  let encPubRequest := store !! "encryptionPublicKey" in
  let encPrivRequest := store !! "encryptionPrivateKey" in
  let sigPubRequest := store !! "signingPublicKey" in
  let sigPrivRequest := store !! "signingPrivateKey" in
  if truthy encPubRequest && truthy encPrivRequest
     && truthy sigPubRequest && truthy sigPrivRequest
  then Some {| encryptionPublicKey := default [] encPubRequest;
               encryptionPrivateKey := default [] encPrivRequest;
               signingPublicKey := default [] sigPubRequest;
               signingPrivateKey := default [] sigPrivRequest |}
  else None.

(** [getKeys()]: [db] is the outcome of opening the database and running the
    read transaction, which rejects when either fails. *)
Definition getKeys (db : completion ObjectStore) : completion (option StoredKeys) :=
  do store <- db in
  Return (getKeys_oncomplete store).

(** [hasKeys()] *)
Definition hasKeys (db : completion ObjectStore) : completion bool :=
  do keys <- getKeys db in
  Return (bool_decide (is_Some keys)).

(** ** [src/components/Login.tsx]: the public key bundle sent to the server *)

(** [JSON.stringify] of a string (QuoteJSONString): the quote, the backslash
    and control characters are escaped, and so is a surrogate without its
    partner. *)
Definition hex_digit (d : N) : N := if d <? 10 then 48 + d else 87 + d.

Definition unicode_escape (c : N) : jsstring :=
  [92; 117; hex_digit (c / 4096); hex_digit ((c / 256) mod 16);
   hex_digit ((c / 16) mod 16); hex_digit (c mod 16)].

Definition is_leading_surrogate (c : N) : bool := (55296 <=? c) && (c <=? 56319).
Definition is_trailing_surrogate (c : N) : bool := (56320 <=? c) && (c <=? 57343).

Definition quote_code_unit (c : N) : jsstring :=
  if c =? 8 then [92; 98]
  else if c =? 9 then [92; 116]
  else if c =? 10 then [92; 110]
  else if c =? 12 then [92; 102]
  else if c =? 13 then [92; 114]
  else if c =? 34 then [92; 34]
  else if c =? 92 then [92; 92]
  else if c <? 32 then unicode_escape c
  else if is_leading_surrogate c || is_trailing_surrogate c then unicode_escape c
  else [c].

Fixpoint quote_code_units (s : jsstring) : jsstring :=
  match s with
  | [] => []
  | c :: rest =>
      match rest with
      | d :: rest' =>
          if is_leading_surrogate c && is_trailing_surrogate d
          then c :: d :: quote_code_units rest'
          else quote_code_unit c ++ quote_code_units rest
      | [] => quote_code_unit c
      end
  end.

Definition QuoteJSONString (s : jsstring) : jsstring :=
  34 :: quote_code_units s ++ [34].

(** [JSON.stringify({encryption: encryptionPublicKey, signing: signingPublicKey})] *)
Definition combinedPublicKey (encryptionPublicKey signingPublicKey : jsstring)
  : jsstring :=
  js "{" ++ QuoteJSONString (js "encryption") ++ js ":"
  ++ QuoteJSONString encryptionPublicKey ++ js ","
  ++ QuoteJSONString (js "signing") ++ js ":"
  ++ QuoteJSONString signingPublicKey ++ js "}".

(** ** [src/lib/api.ts]: the records exchanged with the server *)

Module InboxFile.
Record t : Type := {
  fileId : jsstring;
  fileName : jsstring;
  senderId : jsstring;
  uploadedAt : jsstring
}.
End InboxFile.

Module DownloadedFile.
Record t : Type := {
  encryptedFile : list byte;      (* the bytes of the Blob *)
  encryptedAESKey : jsstring;
  nonce : jsstring;
  authTag : jsstring;
  signature : jsstring;
  senderPublicKey : jsstring;
  fileName : jsstring
}.
End DownloadedFile.

Module SendFilePayload.
Record t : Type := {
  receiverId : jsstring;
  encryptedAESKey : jsstring;
  nonce : jsstring;
  authTag : jsstring;
  signature : jsstring;
  senderPublicKey : jsstring;
  file : list byte;               (* the bytes of the Blob *)
  fileName : jsstring
}.
End SendFilePayload.

(** ** Asynchronous handlers

    A handler runs against the state [W] of its component; an exception
    ends it, with the state as it was when thrown. *)

Definition handler (W A : Type) : Type := W -> completion A * W.

Definition pure {W A} (a : A) : handler W A := fun w => (Return a, w).

(** [await c] (or a synchronous call): the state is untouched. *)
Definition settle {W A} (c : completion A) : handler W A := fun w => (c, w).

Definition then_ {W A B} (m : handler W A) (k : A -> handler W B) : handler W B :=
  fun w =>
    match m w with
    | (Return a, w') => k a w'
    | (Throw e, w') => (Throw e, w')
    end.

Definition try_ {W A} (body : handler W A) (catch : exn -> handler W A)
  : handler W A :=
  fun w =>
    match body w with
    | (Return a, w') => (Return a, w')
    | (Throw e, w') => catch e w'
    end.

Definition update {W} (f : W -> W) : handler W unit := fun w => (Return tt, f w).

Notation "'await' x <- m 'in' k" := (then_ m (fun x => k))
  (at level 10, x name, m at level 100, k at level 200).
Notation "'exec' m 'in' k" := (then_ m (fun _ => k))
  (at level 10, m at level 100, k at level 200).

(** The key picked from a key bundle: [JSON.parse(text).field], or the text
    itself when that throws.  The send handler reads [encryption] from the
    receiver's bundle, the receive handler [signing] from the sender's. *)
Definition parse_or_fallback (JSON_parse : JSON_parser) (text field : jsstring)
  : completion JsValue :=
  try_catch
    (do parsed <- JSON_parse text in get_property parsed field)
    (fun _ => Return (JString text)).

(** ** [src/components/ReceiveFiles.tsx] *)

Module ReceiveFiles.

Inductive ReceiveState : Type := st_list | st_downloading | st_success | st_error.

Section WithPlatform.
Context {P : Provider}.
Context (JSON_parse : JSON_parser).
(* [getKeys()] reads this store; [downloadFile] is the network *)
Context (db : completion ObjectStore).
Context (downloadFile : jsstring -> completion DownloadedFile.t).

(** What the handler called, in order, and what it handed to the browser to
    save. *)
Inductive Event : Type :=
| call_importSigningPublicKey (base64Key : jsstring)
| call_hashData (data : ArrayBuffer)
| call_verifySignature (signature data : ArrayBuffer) (publicKey : CryptoKey P)
| call_importPrivateKey (base64Key : jsstring)
| call_decryptAESKey (encryptedAESKey : ArrayBuffer) (privateKey : CryptoKey P)
| call_decryptFile (encryptedData : ArrayBuffer) (aesKey : CryptoKey P) (nonce : list byte)
| save_file (name : jsstring) (content : ArrayBuffer).

(** The state of the component; [error] is [None] for the empty string and
    [Some e] for the message of [e]. *)
Record Component : Type := {
  state : ReceiveState;
  error : option exn;
  progress : string;
  selectedFile : option InboxFile.t;
  log : list Event
}.

Definition initial : Component :=
  {| state := st_list; error := None; progress := ""; selectedFile := None;
     log := [] |}.

Definition setState (s : ReceiveState) : handler Component unit :=
  update (fun w => {| state := s; error := error w; progress := progress w;
                      selectedFile := selectedFile w; log := log w |}).
Definition setError (e : option exn) : handler Component unit :=
  update (fun w => {| state := state w; error := e; progress := progress w;
                      selectedFile := selectedFile w; log := log w |}).
Definition setProgress (p : string) : handler Component unit :=
  update (fun w => {| state := state w; error := error w; progress := p;
                      selectedFile := selectedFile w; log := log w |}).
Definition setSelectedFile (f : option InboxFile.t) : handler Component unit :=
  update (fun w => {| state := state w; error := error w; progress := progress w;
                      selectedFile := f; log := log w |}).
Definition record (ev : Event) : handler Component unit :=
  update (fun w => {| state := state w; error := error w; progress := progress w;
                      selectedFile := selectedFile w; log := log w ++ [ev] |}).

(** A call of a function of [crypto.ts], recorded before it runs. *)
Definition call {A} (ev : Event) (c : completion A) : handler Component A :=
  exec record ev in settle c.

(** Lines 63-70: the sender's signing key out of [senderPublicKey]. *)
Definition senderSigningKey (senderPublicKey : jsstring) : completion JsValue :=
  parse_or_fallback JSON_parse senderPublicKey (js "signing").

(** Lines 76-86: the digest recomputed from the received bytes. *)
Definition dataToVerify (encryptedFileBuffer nonce authTag : ArrayBuffer)
  : completion ArrayBuffer :=
  concatenateBuffers [encryptedFileBuffer; nonce; authTag].

(** Lines 103-105: ciphertext and tag joined again. *)
Definition ciphertextWithTag (encryptedFileBuffer authTag : ArrayBuffer)
  : completion ArrayBuffer :=
  let joined := Uint8Array_new (length encryptedFileBuffer + length authTag) in
  do joined <- Uint8Array_set joined encryptedFileBuffer 0 in
  Uint8Array_set joined authTag (length encryptedFileBuffer).

(** Lines 52-127: the body of the [try]. *)
Definition download (file : InboxFile.t) : handler Component unit :=
  await keys <- settle (getKeys db) in
  match keys with
  | None => settle (Throw (Error "Local keys not found"))
  | Some keys =>
  exec setProgress "Downloading encrypted file..." in
  await downloadedFile <- settle (downloadFile (InboxFile.fileId file)) in
  exec setProgress "Verifying sender signature..." in
  await senderSigningKey <-
    settle (senderSigningKey (DownloadedFile.senderPublicKey downloadedFile)) in
  let senderSigningKey := ToString senderSigningKey in
  await signingPublicKey <-
    call (call_importSigningPublicKey senderSigningKey)
         (importSigningPublicKey senderSigningKey) in
  let encryptedFileBuffer := DownloadedFile.encryptedFile downloadedFile in
  await nonce <- settle (base64ToArrayBuffer (DownloadedFile.nonce downloadedFile)) in
  await authTag <- settle (base64ToArrayBuffer (DownloadedFile.authTag downloadedFile)) in
  await dataToVerify <- settle (dataToVerify encryptedFileBuffer nonce authTag) in
  await hash <- call (call_hashData dataToVerify) (hashData (P := P) dataToVerify) in
  await signature <-
    settle (base64ToArrayBuffer (DownloadedFile.signature downloadedFile)) in
  await isValid <-
    call (call_verifySignature signature hash signingPublicKey)
         (verifySignature signature hash signingPublicKey) in
  if negb isValid
  then settle (Throw (Error
    "Signature verification failed - file may be tampered or not from claimed sender"))
  else
  exec setProgress "Decrypting file..." in
  await encryptedAESKey <-
    settle (base64ToArrayBuffer (DownloadedFile.encryptedAESKey downloadedFile)) in
  await privateKey <-
    call (call_importPrivateKey (encryptionPrivateKey keys))
         (importPrivateKey (encryptionPrivateKey keys)) in
  await aesKey <-
    call (call_decryptAESKey encryptedAESKey privateKey)
         (decryptAESKey encryptedAESKey privateKey) in
  await ciphertextWithTag <- settle (ciphertextWithTag encryptedFileBuffer authTag) in
  await decryptedBuffer <-
    call (call_decryptFile ciphertextWithTag aesKey nonce)
         (decryptFile ciphertextWithTag aesKey nonce) in
  exec setProgress "Saving file..." in
  let name := match DownloadedFile.fileName downloadedFile with
              | [] => InboxFile.fileName file
              | n => n
              end in
  exec record (save_file name decryptedBuffer) in
  exec setState st_success in
  setProgress ""
  end.

Definition handleDownload (file : InboxFile.t) : handler Component unit :=
  exec setSelectedFile (Some file) in
  exec setState st_downloading in
  exec setError None in
  try_ (download file)
    (fun err =>
       exec setError (Some err) in
       exec setState st_error in
       setProgress "").

(** An event that decrypts: the key unwrap or the file decryption. *)
Definition is_decryption (ev : Event) : bool :=
  match ev with
  | call_decryptAESKey _ _ | call_decryptFile _ _ _ => true
  | _ => false
  end.

Definition is_save (ev : Event) : bool :=
  match ev with
  | save_file _ _ => true
  | _ => false
  end.

End WithPlatform.
End ReceiveFiles.

(** ** [src/components/SendFile.tsx] *)

Module SendFile.

Inductive SendState : Type := st_lookup | st_select | st_sending | st_success | st_error.

(** The [File] picked by the user. *)
Record File : Type := { name : jsstring; contents : list byte }.

(** What [getReceiverPublicKey] returned. *)
Record ReceiverData : Type := { userId : jsstring; publicKey : jsstring }.

Section WithPlatform.
Context {P : Provider}.
Context (JSON_parse : JSON_parser).
(* [getKeys()] reads this store; [sendFile] is the network *)
Context (db : completion ObjectStore).
Context (sendFile : SendFilePayload.t -> completion (jsstring * jsstring)).

Inductive Event : Type :=
| call_generateAESKey
| call_generateNonce
| call_encryptFile (file : ArrayBuffer) (aesKey : CryptoKey P) (nonce : list byte)
| call_importPublicKey (base64Key : jsstring)
| call_encryptAESKey (aesKey receiverPublicKey : CryptoKey P)
| call_hashData (data : ArrayBuffer)
| call_importSigningPrivateKey (base64Key : jsstring)
| call_signData (data : ArrayBuffer) (privateKey : CryptoKey P)
| call_sendFile (payload : SendFilePayload.t).

Record Component : Type := {
  state : SendState;
  receiverData : option ReceiverData;
  selectedFile : option File;
  error : option exn;
  progress : string;
  log : list Event
}.

Definition setState (s : SendState) : handler Component unit :=
  update (fun w => {| state := s; receiverData := receiverData w;
                      selectedFile := selectedFile w; error := error w;
                      progress := progress w; log := log w |}).
Definition setError (e : option exn) : handler Component unit :=
  update (fun w => {| state := state w; receiverData := receiverData w;
                      selectedFile := selectedFile w; error := e;
                      progress := progress w; log := log w |}).
Definition setProgress (p : string) : handler Component unit :=
  update (fun w => {| state := state w; receiverData := receiverData w;
                      selectedFile := selectedFile w; error := error w;
                      progress := p; log := log w |}).
Definition record (ev : Event) : handler Component unit :=
  update (fun w => {| state := state w; receiverData := receiverData w;
                      selectedFile := selectedFile w; error := error w;
                      progress := progress w; log := log w ++ [ev] |}).

Definition call {A} (ev : Event) (c : completion A) : handler Component A :=
  exec record ev in settle c.

(** Lines 94-102: the receiver's encryption key out of its [publicKey]. *)
Definition receiverEncryptionKey (publicKey : jsstring) : completion JsValue :=
  parse_or_fallback JSON_parse publicKey (js "encryption").

(** Lines 88-91: the output of AES-GCM split at its 16-byte tail. *)
Definition authTagLength : Z := 16.

Definition split_ciphertext (encryptedFile : list byte) : list byte * list byte :=
  let n := Z.of_nat (length encryptedFile) in
  (Uint8Array_slice encryptedFile 0 (Some (n - authTagLength)%Z),
   Uint8Array_slice encryptedFile (n - authTagLength)%Z None).

(** Lines 110-114: the bytes that are hashed and signed. *)
Definition dataToSign (ciphertext nonce authTag : ArrayBuffer) : completion ArrayBuffer :=
  concatenateBuffers [ciphertext; nonce; authTag].

(** Lines 68-136: the body of the [try]. *)
Definition upload (selectedFile : File) (receiverData : ReceiverData)
  : handler Component unit :=
  await keys <- settle (getKeys db) in
  match keys with
  | None => settle (Throw (Error "Local keys not found"))
  | Some keys =>
  exec setProgress "Reading file..." in
  let fileBuffer := contents selectedFile in
  exec setProgress "Generating encryption key..." in
  await aesKey <- call call_generateAESKey generateAESKey in
  await nonce <- call call_generateNonce (Return (generateNonce (P := P))) in
  exec setProgress "Encrypting file..." in
  await encryptedFileBuffer <-
    call (call_encryptFile fileBuffer aesKey nonce)
         (encryptFile fileBuffer aesKey nonce) in
  let '(ciphertext, authTag) := split_ciphertext encryptedFileBuffer in
  exec setProgress "Encrypting key for receiver..." in
  await receiverEncryptionKey <-
    settle (receiverEncryptionKey (publicKey receiverData)) in
  let receiverEncryptionKey := ToString receiverEncryptionKey in
  await receiverPublicKey <-
    call (call_importPublicKey receiverEncryptionKey)
         (importPublicKey receiverEncryptionKey) in
  await encryptedAESKey <-
    call (call_encryptAESKey aesKey receiverPublicKey)
         (encryptAESKey aesKey receiverPublicKey) in
  exec setProgress "Creating digital signature..." in
  await dataToSign <- settle (dataToSign ciphertext nonce authTag) in
  await hash <- call (call_hashData dataToSign) (hashData (P := P) dataToSign) in
  await signingPrivateKey <-
    call (call_importSigningPrivateKey (signingPrivateKey keys))
         (importSigningPrivateKey (signingPrivateKey keys)) in
  await signature <-
    call (call_signData hash signingPrivateKey) (signData hash signingPrivateKey) in
  exec setProgress "Uploading encrypted file..." in
  await encryptedAESKey64 <- settle (arrayBufferToBase64 encryptedAESKey) in
  await nonce64 <- settle (arrayBufferToBase64 nonce) in
  await authTag64 <- settle (arrayBufferToBase64 authTag) in
  await signature64 <- settle (arrayBufferToBase64 signature) in
  let payload :=
    {| SendFilePayload.receiverId := userId receiverData;
       SendFilePayload.encryptedAESKey := encryptedAESKey64;
       SendFilePayload.nonce := nonce64;
       SendFilePayload.authTag := authTag64;
       SendFilePayload.signature := signature64;
       SendFilePayload.senderPublicKey := signingPublicKey keys;
       SendFilePayload.file := ciphertext;
       SendFilePayload.fileName := name selectedFile |} in
  await result <- call (call_sendFile payload) (sendFile payload) in
  exec setState st_success in
  setProgress ""
  end.

(** [handleSend]: nothing happens unless a file and a receiver are set. *)
Definition handleSend : handler Component unit :=
  fun w =>
    match selectedFile w, receiverData w with
    | Some selectedFile, Some receiverData =>
        (exec setState st_sending in
         exec setError None in
         try_ (upload selectedFile receiverData)
           (fun err =>
              exec setError (Some err) in
              exec setState st_error in
              setProgress "")) w
    | _, _ => (Return tt, w)
    end.

(** The envelope handed to the network, if the handler got that far. *)
Definition uploaded (w : Component) : list SendFilePayload.t :=
  omap (fun ev => match ev with call_sendFile p => Some p | _ => None end) (log w).

End WithPlatform.
End SendFile.

(** ** A small platform to run the model on

    A provider with one-byte RSA keys and no secrecy at all.  It obeys the
    functional laws the theorems assume of a provider, and serves to run the
    handlers on concrete inputs. *)

Global Instance byte_eq_decision : EqDecision byte.
Proof.
  intros x y. destruct (Byte.eqb x y) eqn:E.
  - left. by apply Byte.byte_dec_bl.
  - right. by apply Byte.eqb_false.
Defined.

Module Toy.

Definition tag (k iv : list byte) : list byte := take 16 (iv ++ k ++ repeat x00 16).

Definition provider : Provider := {|
  rsa_public := byte;
  rsa_private := byte;
  rsa_matches := fun pk sk => bool_decide (pk = sk);
  rsa_oaep_keygen := (x01, x01);
  rsa_pss_keygen := (x02, x02);
  aes256_keygen := repeat x07 32;
  random_values := repeat x2a;
  spki_encode := fun pk => [x30; pk];
  spki_decode := fun d => match d with [x30; pk] => Some pk | _ => None end;
  pkcs8_encode := fun sk => [x31; sk];
  pkcs8_decode := fun d => match d with [x31; sk] => Some sk | _ => None end;
  oaep_encrypt := fun pk m => Some (pk :: m);
  oaep_decrypt := fun sk c =>
    match c with
    | b :: m => if bool_decide (b = sk) then Some m else None
    | [] => None
    end;
  pss_sign := fun sk _ d => sk :: d;
  pss_verify := fun pk _ s d => bool_decide (s = pk :: d);
  gcm_encrypt := fun k iv p => p ++ tag k iv;
  gcm_decrypt := fun k iv c =>
    let n := (length c - 16)%nat in
    if bool_decide (drop n c = tag k iv) then Some (take n c) else None;
  sha256 := fun d => d
|}.

(** A stand-in for [JSON.parse] that reads key bundles only: the text
    [{"encryption":"e","signing":"s"}] with [e] and [s] free of quotes and
    backslashes; any other text is rejected. *)
Fixpoint until_quote (s : jsstring) : option (jsstring * jsstring) :=
  match s with
  | [] => None
  | c :: rest =>
      if c =? 34 then Some ([], rest)
      else if c =? 92 then None
      else match until_quote rest with
           | Some (v, rest') => Some (c :: v, rest')
           | None => None
           end
  end.

Fixpoint strip_prefix (p s : jsstring) : option jsstring :=
  match p, s with
  | [], _ => Some s
  | a :: p', b :: s' => if a =? b then strip_prefix p' s' else None
  | _ :: _, [] => None
  end.

Definition parse_bundle : JSON_parser := fun text =>
  let parsed :=
    s ← strip_prefix (js "{" ++ QuoteJSONString (js "encryption") ++ js ":" ++ [34]) text;
    '(e, s) ← until_quote s;
    s ← strip_prefix (js "," ++ QuoteJSONString (js "signing") ++ js ":" ++ [34]) s;
    '(g, s) ← until_quote s;
    match s with
    | [125] => Some (JObject [(js "encryption", JString e); (js "signing", JString g)])
    | _ => None
    end in
  match parsed with
  | Some v => Return v
  | None => Throw SyntaxError
  end.

(** A user's keys as [Login.tsx] makes and stores them. *)
Definition provision (pair signingPair : CryptoKeyPair provider)
  : completion StoredKeys :=
  do encPub <- exportPublicKey (publicKey pair) in
  do encPriv <- exportPrivateKey (privateKey pair) in
  do sigPub <- exportPublicKey (publicKey signingPair) in
  do sigPriv <- exportPrivateKey (privateKey signingPair) in
  Return {| encryptionPublicKey := encPub; encryptionPrivateKey := encPriv;
            signingPublicKey := sigPub; signingPrivateKey := sigPriv |}.

Definition rsa_pair (name : AlgorithmName) (pub priv : KeyUsage) (k : byte)
  : CryptoKeyPair provider :=
  {| publicKey := Build_CryptoKey name true [pub] (RsaPublic (P := provider) k);
     privateKey := Build_CryptoKey name true [priv] (RsaPrivate (P := provider) k) |}.

(** Alice sends, Bob receives. *)
Definition alice_keys : completion StoredKeys :=
  provision (rsa_pair RSA_OAEP encrypt decrypt x0a) (rsa_pair RSA_PSS verify sign x0b).
Definition bob_keys : completion StoredKeys :=
  provision (rsa_pair RSA_OAEP encrypt decrypt x0c) (rsa_pair RSA_PSS verify sign x0d).

Definition hello : SendFile.File :=
  {| SendFile.name := js "hello.txt"; SendFile.contents := [x68; x65; x6c; x6c; x6f] |}.

Definition accept_upload (p : SendFilePayload.t) : completion (jsstring * jsstring) :=
  Return (js "file-1", js "ok").

(** The server hands the envelope on as it got it. *)
Definition relay (p : SendFilePayload.t) : DownloadedFile.t :=
  {| DownloadedFile.encryptedFile := SendFilePayload.file p;
     DownloadedFile.encryptedAESKey := SendFilePayload.encryptedAESKey p;
     DownloadedFile.nonce := SendFilePayload.nonce p;
     DownloadedFile.authTag := SendFilePayload.authTag p;
     DownloadedFile.signature := SendFilePayload.signature p;
     DownloadedFile.senderPublicKey := SendFilePayload.senderPublicKey p;
     DownloadedFile.fileName := SendFilePayload.fileName p |}.

Definition inbox_entry : InboxFile.t :=
  {| InboxFile.fileId := js "file-1"; InboxFile.fileName := js "hello.txt";
     InboxFile.senderId := js "alice"; InboxFile.uploadedAt := js "today" |}.

(** The envelope with another signature in place of the sender's. *)
Definition forged (d : DownloadedFile.t) : DownloadedFile.t :=
  {| DownloadedFile.encryptedFile := DownloadedFile.encryptedFile d;
     DownloadedFile.encryptedAESKey := DownloadedFile.encryptedAESKey d;
     DownloadedFile.nonce := DownloadedFile.nonce d;
     DownloadedFile.authTag := DownloadedFile.authTag d;
     DownloadedFile.signature := js "AAAA";
     DownloadedFile.senderPublicKey := DownloadedFile.senderPublicKey d;
     DownloadedFile.fileName := DownloadedFile.fileName d |}.

End Toy.

(** ** Notions used in the statements *)

(** The code units [btoa] writes for the data (not the padding). *)
Definition alphabet (c : N) : Prop :=
  exists i, i < 64 /\ c = Base64.sextet_char i.

(** A binary string: every code unit is a byte. *)
Definition binary (s : jsstring) : Prop := Forall (fun c => c < 256) s.

(** The four keys of the object store. *)
Definition key_names : list string :=
  ["encryptionPublicKey"; "encryptionPrivateKey"; "signingPublicKey";
   "signingPrivateKey"].


Definition all_present_and_nonempty (store : ObjectStore) : Prop :=
  forall k, k ∈ key_names -> exists v, store !! k = Some v /\ v <> [].


(** ** What is assumed of a provider, and the keys the code handles *)

Section Laws.
Context (P : Provider).

(** AES-GCM decrypts what it encrypted, and its output is the plaintext's
    length plus a 16-byte tag. *)
Definition gcm_correct : Prop :=
  forall k iv p, gcm_decrypt P k iv (gcm_encrypt P k iv p) = Some p.

Definition gcm_tag_appended : Prop :=
  forall k iv p, length (gcm_encrypt P k iv p) = (length p + 16)%nat.

(** RSA-OAEP with a 2048-bit key and SHA-256 takes up to 190 bytes; the
    private key of the pair decrypts, any other private key fails. *)
Definition oaep_correct : Prop :=
  forall pk sk m, rsa_matches P pk sk = true -> (length m <= 190)%nat ->
    exists c, oaep_encrypt P pk m = Some c /\ oaep_decrypt P sk c = Some m.

Definition oaep_rejects_other_keys : Prop :=
  forall pk sk m c, rsa_matches P pk sk = false ->
    oaep_encrypt P pk m = Some c -> oaep_decrypt P sk c = None.

Definition spki_round_trip : Prop :=
  forall pk, spki_decode P (spki_encode P pk) = Some pk.

Definition pkcs8_round_trip : Prop :=
  forall sk, pkcs8_decode P (pkcs8_encode P sk) = Some sk.

(** The keys as the functions of [crypto.ts] make them: an RSA key
    generated or imported for encryption or for signing, an AES key. *)
Definition oaep_public (pk : rsa_public P) : CryptoKey P :=
  Build_CryptoKey RSA_OAEP true [encrypt] (RsaPublic pk).
Definition oaep_private (sk : rsa_private P) : CryptoKey P :=
  Build_CryptoKey RSA_OAEP true [decrypt] (RsaPrivate sk).
Definition pss_public (pk : rsa_public P) : CryptoKey P :=
  Build_CryptoKey RSA_PSS true [verify] (RsaPublic pk).
Definition pss_private (sk : rsa_private P) : CryptoKey P :=
  Build_CryptoKey RSA_PSS true [sign] (RsaPrivate sk).
Definition aes_key (us : list KeyUsage) (k : list byte) : CryptoKey P :=
  Build_CryptoKey AES_GCM true us (AesRaw k).

(** The content key as [generateAESKey] returns it, and as [decryptAESKey]
    returns it on the other side. *)
Definition content_key (k : list byte) : CryptoKey P := aes_key [encrypt; decrypt] k.
Definition unwrapped_key (k : list byte) : CryptoKey P := aes_key [decrypt] k.

End Laws.
Arguments oaep_public {P} pk.
Arguments oaep_private {P} sk.
Arguments pss_public {P} pk.
Arguments pss_private {P} sk.

(** ** Order of the calls of the receive handler *)

Section Order.
Context {P : Provider}.

(** The event is a call of [verifySignature] that returns true. *)
Definition passes (ev : ReceiveFiles.Event (P := P)) : Prop :=
  match ev with
  | ReceiveFiles.call_verifySignature signature data publicKey =>
      verifySignature signature data publicKey = Return true
  | _ => False
  end.

(** Each decryption and each save in [evs] comes after a verification that
    passed, [verified] telling whether one came before [evs]. *)
Fixpoint ordered (verified : Prop) (evs : list (ReceiveFiles.Event (P := P))) : Prop :=
  match evs with
  | [] => True
  | ev :: rest =>
      (ReceiveFiles.is_decryption ev || ReceiveFiles.is_save ev = true -> verified)
      /\ ordered (verified \/ passes ev) rest
  end.

End Order.

(** The exception the receive handler throws when [isValid] is false. *)
Definition verification_failed : exn :=
  Error "Signature verification failed - file may be tampered or not from claimed sender".

(** ** A transfer on the small platform *)

Module Scenario.

Definition no_payload : SendFilePayload.t :=
  {| SendFilePayload.receiverId := []; SendFilePayload.encryptedAESKey := [];
     SendFilePayload.nonce := []; SendFilePayload.authTag := [];
     SendFilePayload.signature := []; SendFilePayload.senderPublicKey := [];
     SendFilePayload.file := []; SendFilePayload.fileName := [] |}.

Definition no_keys : StoredKeys :=
  {| encryptionPublicKey := []; encryptionPrivateKey := [];
     signingPublicKey := []; signingPrivateKey := [] |}.

(** The keys of the two users, the directory entry of Bob and the stores. *)
Definition alice : StoredKeys :=
  Eval vm_compute in
    match Toy.alice_keys with Return k => k | Throw _ => no_keys end.
Definition bob : StoredKeys :=
  Eval vm_compute in
    match Toy.bob_keys with Return k => k | Throw _ => no_keys end.
Definition bob_entry : SendFile.ReceiverData :=
  {| SendFile.userId := js "bob";
     SendFile.publicKey :=
       combinedPublicKey (encryptionPublicKey bob) (signingPublicKey bob) |}.

(** Alice's component before she sends [hello.txt] to Bob. *)
Definition alice_ready : SendFile.Component (P := Toy.provider) :=
  {| SendFile.state := SendFile.st_select;
     SendFile.receiverData := Some bob_entry;
     SendFile.selectedFile := Some Toy.hello;
     SendFile.error := None; SendFile.progress := "";
     SendFile.log := [] |}.

Definition alice_sent : SendFile.Component (P := Toy.provider) :=
  snd (SendFile.handleSend Toy.parse_bundle (Return (storeKeys alice ∅))
         Toy.accept_upload alice_ready).

(** The envelope Alice uploaded, and what Bob downloads. *)
Definition envelope : SendFilePayload.t :=
  Eval vm_compute in
    match SendFile.uploaded alice_sent with p :: _ => p | [] => no_payload end.

Definition received : DownloadedFile.t := Toy.relay envelope.

Definition bob_receives (d : DownloadedFile.t)
  : ReceiveFiles.Component (P := Toy.provider) :=
  snd (ReceiveFiles.handleDownload Toy.parse_bundle (Return (storeKeys bob ∅))
         (fun _ => Return d) Toy.inbox_entry ReceiveFiles.initial).



(** The digest and the signature Bob's handler verifies. *)
Definition digest : list byte :=
  Toy.hello.(SendFile.contents) ++ repeat x2a 12
  ++ Toy.tag (repeat x07 32) (repeat x2a 12).

Definition signature : list byte := x0b :: digest.

End Scenario.

(** ** Further laws of a provider *)

Section MoreLaws.
Context (P : Provider).

(** A signature made with the private key of a pair verifies with its
    public key. *)
Definition pss_correct : Prop :=
  forall pk sk salt d, rsa_matches P pk sk = true ->
    pss_verify P pk salt (pss_sign P sk salt d) d = true.

(** The content key is 256 bits, the nonce as long as asked for. *)
Definition aes256_keygen_length : Prop := length (aes256_keygen P) = 32%nat.

Definition random_values_length : Prop :=
  forall n, length (random_values P n) = n.

End MoreLaws.

(** A stand-in for [JSON.parse] that reads whole numbers only: one to
    fifteen decimal digits without a leading zero parse to that number; any
    other text is rejected. *)
Module ToyJSON.

Definition is_digit (c : N) : bool := (48 <=? c) && (c <=? 57).

Definition parse_integer : JSON_parser := fun text =>
  match text with
  | c :: rest =>
      if (49 <=? c) && (c <=? 57) && forallb is_digit rest
         && (length rest <? 15)%nat
      then Return (JNumber text)
      else Throw SyntaxError
  | [] => Throw SyntaxError
  end.

End ToyJSON.

(** ** [src/lib/api.ts]: the session token *)

Module Api.

(** [localStorage]: values by key. *)
Abbreviation Storage := (gmap string jsstring).

Definition getToken (localStorage : Storage) : option jsstring :=
  localStorage !! "jwt".

Definition setToken (token : jsstring) (localStorage : Storage) : Storage :=
  <["jwt" := token]> localStorage.

Definition clearToken (localStorage : Storage) : Storage :=
  delete "jwt" localStorage.

(** [!!getToken()] *)
Definition isAuthenticated (localStorage : Storage) : bool :=
  truthy (getToken localStorage).

(** The template literal [`Bearer ${token}`]: [null] is written out. *)
Definition authHeaders (localStorage : Storage) : list (string * jsstring) :=
  let token := getToken localStorage in
  [("Authorization",
    js "Bearer " ++ match token with Some t => t | None => js "null" end)].

Definition jsonAuthHeaders (localStorage : Storage) : list (string * jsstring) :=
  authHeaders localStorage ++ [("Content-Type", js "application/json")].

(** What [authGoogle] resolves to. *)
Record AuthResult : Type := {
  token : jsstring;
  isNewUser : bool;
  userId : jsstring
}.

End Api.

(** ** [src/contexts/AuthContext.tsx] and [src/components/Login.tsx]

    The browser as these two see it: the two flags of the context, the
    local storage, the object store of the key database (or the reason it
    does not open), the public keys posted to the server and the alerts
    shown.  A promise that is not awaited ([clearKeys()] in [logout],
    [hasKeys().then] on mount) is taken to settle before the next handler
    runs, as the order of IndexedDB transactions has it; its rejection is
    dropped. *)

Module App.

Record Browser : Type := {
  isLoggedIn : bool;
  hasKeyPair : bool;
  localStorage : Api.Storage;
  keyStore : completion ObjectStore;
  posted : list (list (string * jsstring) * jsstring);
  alerts : list string
}.

Definition setIsLoggedIn (value : bool) : handler Browser unit :=
  update (fun w => {| isLoggedIn := value; hasKeyPair := hasKeyPair w;
                      localStorage := localStorage w; keyStore := keyStore w;
                      posted := posted w; alerts := alerts w |}).
Definition setHasKeyPair (value : bool) : handler Browser unit :=
  update (fun w => {| isLoggedIn := isLoggedIn w; hasKeyPair := value;
                      localStorage := localStorage w; keyStore := keyStore w;
                      posted := posted w; alerts := alerts w |}).
Definition setLocalStorage (f : Api.Storage -> Api.Storage) : handler Browser unit :=
  update (fun w => {| isLoggedIn := isLoggedIn w; hasKeyPair := hasKeyPair w;
                      localStorage := f (localStorage w); keyStore := keyStore w;
                      posted := posted w; alerts := alerts w |}).
Definition setKeyStore (store : completion ObjectStore) : handler Browser unit :=
  update (fun w => {| isLoggedIn := isLoggedIn w; hasKeyPair := hasKeyPair w;
                      localStorage := localStorage w; keyStore := store;
                      posted := posted w; alerts := alerts w |}).
Definition post (headers : list (string * jsstring)) (publicKey : jsstring)
  : handler Browser unit :=
  update (fun w => {| isLoggedIn := isLoggedIn w; hasKeyPair := hasKeyPair w;
                      localStorage := localStorage w; keyStore := keyStore w;
                      posted := posted w ++ [(headers, publicKey)];
                      alerts := alerts w |}).
Definition alert (message : string) : handler Browser unit :=
  update (fun w => {| isLoggedIn := isLoggedIn w; hasKeyPair := hasKeyPair w;
                      localStorage := localStorage w; keyStore := keyStore w;
                      posted := posted w; alerts := alerts w ++ [message] |}).

(** [storeKeys(keys)] and [hasKeys()] of [keyStorage.ts] on the browser's
    database: both reject when it does not open. *)
Definition storeKeys_ (keys : StoredKeys) : handler Browser unit :=
  fun w =>
    match keyStore w with
    | Return store => setKeyStore (Return (storeKeys keys store)) w
    | Throw e => (Throw e, w)
    end.

Definition hasKeys_ : handler Browser bool :=
  fun w => settle (hasKeys (keyStore w)) w.

Section WithServer.
Context {P : Provider}.
(* the server's answers to [POST /auth/google] and [POST /users/public-key] *)
Context (authGoogle : jsstring -> completion Api.AuthResult).
Context (accepts : list (string * jsstring) -> jsstring -> completion unit).

(** [uploadPublicKey(publicKey)] of [api.ts]: the request carries the
    headers of [jsonAuthHeaders()], read when it is made. *)
Definition uploadPublicKey (publicKey : jsstring) : handler Browser unit :=
  fun w =>
    let headers := Api.jsonAuthHeaders (localStorage w) in
    (exec post headers publicKey in settle (accepts headers publicKey)) w.

(** The effect run on mount. *)
Definition mount : handler Browser unit :=
  exec (fun w => setIsLoggedIn (Api.isAuthenticated (localStorage w)) w) in
  fun w =>
    match hasKeys (keyStore w) with
    | Return value => setHasKeyPair value w
    | Throw _ => (Return tt, w)
    end.

Definition login (token : jsstring) : handler Browser unit :=
  exec setLocalStorage (Api.setToken token) in
  setIsLoggedIn true.

Definition logout : handler Browser unit :=
  exec setLocalStorage Api.clearToken in
  exec (fun w =>
          match keyStore w with
          | Return store => setKeyStore (Return (clearKeys store)) w
          | Throw _ => (Return tt, w)
          end) in
  exec setIsLoggedIn false in
  setHasKeyPair false.

(** [Login.tsx], lines 41-82: the body of the [try]. *)
Definition authenticate (credential : jsstring) : handler Browser unit :=
  await authResult <- settle (authGoogle credential) in
  exec login (Api.token authResult) in
  if Api.isNewUser authResult then
    await encryptionKeyPair <- settle (generateKeyPair (P := P)) in
    await signingKeyPair <- settle (generateSigningKeyPair (P := P)) in
    await encryptionPublicKey <-
      settle (exportPublicKey (publicKey encryptionKeyPair)) in
    await encryptionPrivateKey <-
      settle (exportPrivateKey (privateKey encryptionKeyPair)) in
    await signingPublicKey <- settle (exportPublicKey (publicKey signingKeyPair)) in
    await signingPrivateKey <-
      settle (exportPrivateKey (privateKey signingKeyPair)) in
    exec storeKeys_ {| encryptionPublicKey := encryptionPublicKey;
                       encryptionPrivateKey := encryptionPrivateKey;
                       signingPublicKey := signingPublicKey;
                       signingPrivateKey := signingPrivateKey |} in
    let combinedPublicKey := combinedPublicKey encryptionPublicKey signingPublicKey in
    exec uploadPublicKey combinedPublicKey in
    setHasKeyPair true
  else
    await keysExist <- hasKeys_ in
    setHasKeyPair keysExist.

Definition handleCredentialResponse (credential : jsstring) : handler Browser unit :=
  try_ (authenticate credential)
    (fun error => alert "Login failed. Please try again.").

End WithServer.

(** A browser that was never used. *)
Definition fresh : Browser :=
  {| isLoggedIn := false; hasKeyPair := false; localStorage := ∅;
     keyStore := Return ∅; posted := []; alerts := [] |}.

End App.

(** ** [src/components/SendFile.tsx]: the receiver lookup and the reset *)

Module SendForm.

(** [String.prototype.trim]: white space and line terminators are taken
    off both ends. *)
Definition is_white_space (c : N) : bool :=
  bool_decide (c ∈ [9; 10; 11; 12; 13; 32; 160; 5760; 8232; 8233; 8239; 8287;
                    12288; 65279])
  || ((8192 <=? c) && (c <=? 8202)).

Fixpoint trim_start (s : jsstring) : jsstring :=
  match s with
  | c :: rest => if is_white_space c then trim_start rest else s
  | [] => []
  end.

Definition trim (s : jsstring) : jsstring :=
  rev (trim_start (rev (trim_start s))).

Section WithServer.
Context {P : Provider}.
(* the answer of [getReceiverPublicKey] *)
Context (getReceiverPublicKey : jsstring -> completion SendFile.ReceiverData).

(** The component with the text of its email field, and the addresses
    looked up so far. *)
Record Form : Type := {
  receiverEmail : jsstring;
  component : SendFile.Component (P := P);
  lookups : list jsstring
}.

Definition setReceiverEmail (value : jsstring) : handler Form unit :=
  update (fun w => {| receiverEmail := value; component := component w;
                      lookups := lookups w |}).

(** A handler of the component, run on the form. *)
Definition on_component {A} (h : handler (SendFile.Component (P := P)) A)
  : handler Form A :=
  fun w =>
    let '(c, component') := h (component w) in
    (c, {| receiverEmail := receiverEmail w; component := component';
           lookups := lookups w |}).

Definition setReceiverData (data : option SendFile.ReceiverData)
  : handler (SendFile.Component (P := P)) unit :=
  update (fun w => {| SendFile.state := SendFile.state w;
                      SendFile.receiverData := data;
                      SendFile.selectedFile := SendFile.selectedFile w;
                      SendFile.error := SendFile.error w;
                      SendFile.progress := SendFile.progress w;
                      SendFile.log := SendFile.log w |}).
Definition setSelectedFile (file : option SendFile.File)
  : handler (SendFile.Component (P := P)) unit :=
  update (fun w => {| SendFile.state := SendFile.state w;
                      SendFile.receiverData := SendFile.receiverData w;
                      SendFile.selectedFile := file;
                      SendFile.error := SendFile.error w;
                      SendFile.progress := SendFile.progress w;
                      SendFile.log := SendFile.log w |}).

Definition lookup (email : jsstring) : handler Form SendFile.ReceiverData :=
  exec update (fun w => {| receiverEmail := receiverEmail w;
                           component := component w;
                           lookups := lookups w ++ [email] |}) in
  settle (getReceiverPublicKey email).

Definition handleLookupReceiver : handler Form unit :=
  fun w =>
    match trim (receiverEmail w) with
    | [] =>
        on_component
          (SendFile.setError (Some (Error "Please enter receiver email"))) w
    | _ :: _ =>
        (exec on_component (SendFile.setError None) in
         exec on_component (SendFile.setProgress "Looking up receiver...") in
         try_ (await data <- lookup (trim (receiverEmail w)) in
               exec on_component (setReceiverData (Some data)) in
               exec on_component (SendFile.setState SendFile.st_select) in
               on_component (SendFile.setProgress ""))
           (fun err =>
              exec on_component (SendFile.setError (Some err)) in
              on_component (SendFile.setProgress ""))) w
    end.

(** [handleFileSelect]: the first of the files picked, if there is one. *)
Definition handleFileSelect (files : list SendFile.File) : handler Form unit :=
  match files with
  | file :: _ => on_component (setSelectedFile (Some file))
  | [] => pure tt
  end.

Definition handleReset : handler Form unit :=
  exec on_component (SendFile.setState SendFile.st_lookup) in
  exec setReceiverEmail [] in
  exec on_component (setReceiverData None) in
  exec on_component (setSelectedFile None) in
  exec on_component (SendFile.setError None) in
  on_component (SendFile.setProgress "").

End WithServer.
End SendForm.

(** The four keys of a new user, as [Login.tsx] generates and exports
    them. *)
Definition provision {P : Provider} : completion StoredKeys :=
  do encryptionKeyPair <- generateKeyPair (P := P) in
  do signingKeyPair <- generateSigningKeyPair (P := P) in
  do encryptionPublicKey <- exportPublicKey (publicKey encryptionKeyPair) in
  do encryptionPrivateKey <- exportPrivateKey (privateKey encryptionKeyPair) in
  do signingPublicKey <- exportPublicKey (publicKey signingKeyPair) in
  do signingPrivateKey <- exportPrivateKey (privateKey signingKeyPair) in
  Return {| encryptionPublicKey := encryptionPublicKey;
            encryptionPrivateKey := encryptionPrivateKey;
            signingPublicKey := signingPublicKey;
            signingPrivateKey := signingPrivateKey |}.

(** * Properties *)

(** ** The buffer utilities *)

Lemma bind_Return {A B} (c : completion A) (k : A -> completion B) (a : A) :
  c = Return a -> bind c k = k a.
Proof. intros ->. reflexivity. Qed.

Lemma to_uint8_to_N (b : byte) : to_uint8 (Byte.to_N b) = b.
Proof.
  unfold to_uint8. pose proof (Byte.to_N_bounded b) as Hb.
  rewrite N.mod_small by lia. by rewrite Byte.of_to_N.
Qed.

(** The loop of [arrayBufferToBase64] builds the string of the bytes. *)
Lemma binary_loop (pre l : list byte) (acc : jsstring) :
  fold_left (fun binary i => binary ++ [Byte.to_N (nth i (pre ++ l) x00)])
    (seq (length pre) (length l)) acc
  = acc ++ List.map Byte.to_N l.
Proof.
  revert pre acc. induction l as [|b l IH]; intros pre acc; simpl.
  - by rewrite app_nil_r.
  - rewrite app_nth2 by lia. rewrite Nat.sub_diag. simpl.
    replace (pre ++ b :: l) with ((pre ++ [b]) ++ l) by (by rewrite <- app_assoc).
    replace (S (length pre)) with (length (pre ++ [b]))
      by (rewrite length_app; simpl; lia).
    rewrite IH. by rewrite <- app_assoc.
Qed.

Lemma arrayBufferToBase64_btoa (buffer : ArrayBuffer) :
  arrayBufferToBase64 buffer = Base64.btoa (List.map Byte.to_N buffer).
Proof.
  unfold arrayBufferToBase64. f_equal.
  exact (binary_loop [] buffer []).
Qed.

(** The loop of [base64ToArrayBuffer] fills the array from the left. *)
Lemma bytes_loop (binary : jsstring) (k : nat) :
  (k <= length binary)%nat ->
  fold_left (fun bytes i => <[i := to_uint8 (nth i binary 0)]> bytes)
    (seq 0 k) (Uint8Array_new (length binary))
  = List.map to_uint8 (take k binary) ++ replicate (length binary - k) x00.
Proof.
  induction k as [|k IH]; intros Hk.
  - simpl. by rewrite Nat.sub_0_r.
  - rewrite seq_S, fold_left_app, IH by lia. simpl.
    destruct (lookup_lt_is_Some_2 binary k) as [c Hc]; [lia|].
    rewrite (take_S_r _ _ _ Hc), map_app. simpl.
    rewrite (nth_lookup_Some _ _ _ _ Hc).
    replace (length binary - k)%nat with (S (length binary - S k)) by lia.
    simpl.
    assert (Hlen : length (List.map to_uint8 (take k binary)) = k).
    { rewrite length_map, length_take. lia. }
    rewrite insert_app_r_alt by lia. rewrite Hlen, Nat.sub_diag. simpl.
    by rewrite <- app_assoc.
Qed.

Lemma base64ToArrayBuffer_atob (base64 : jsstring) :
  base64ToArrayBuffer base64
  = do binary <- Base64.atob base64 in Return (List.map to_uint8 binary).
Proof.
  unfold base64ToArrayBuffer. destruct (Base64.atob base64) as [binary|e]; simpl; [|done].
  rewrite bytes_loop by lia. rewrite firstn_all, Nat.sub_diag. simpl.
  by rewrite app_nil_r.
Qed.

(** [concatenateBuffers] never writes out of bounds and returns the buffers
    end to end. *)
Lemma total_length_loop (buffers : list ArrayBuffer) (n : nat) :
  fold_left (fun sum buf => (sum + length buf)%nat) buffers n
  = (n + length (concat buffers))%nat.
Proof.
  revert n. induction buffers as [|b bs IH]; intros n; simpl; [lia|].
  rewrite IH, length_app. lia.
Qed.

Lemma concat_loop (buffers : list ArrayBuffer) (done_ : list byte) (room : nat) :
  (length (concat buffers) <= room)%nat ->
  for_of (fun '(result, offset) buffer =>
            do result' <- Uint8Array_set result buffer offset in
            Return (result', (offset + length buffer)%nat))
         buffers (done_ ++ replicate room x00, length done_)
  = Return (done_ ++ concat buffers ++ replicate (room - length (concat buffers)) x00,
            (length done_ + length (concat buffers))%nat).
Proof.
  revert done_ room. induction buffers as [|b bs IH]; intros done_ room Hroom; simpl.
  - rewrite Nat.sub_0_r, Nat.add_0_r. reflexivity.
  - simpl in Hroom. rewrite length_app in Hroom.
    unfold Uint8Array_set.
    rewrite length_app, length_replicate.
    destruct (Nat.leb_spec (length done_ + length b) (length done_ + room)) as [_|]; [|lia].
    simpl.
    rewrite take_app_length.
    rewrite drop_app_ge by lia.
    replace (length done_ + length b - length done_)%nat with (length b) by lia.
    rewrite drop_replicate.
    replace (done_ ++ b ++ replicate (room - length b) x00)
      with ((done_ ++ b) ++ replicate (room - length b) x00) by (by rewrite <- app_assoc).
    replace (length done_ + length b)%nat with (length (done_ ++ b))
      by (by rewrite length_app).
    rewrite IH by lia.
    rewrite !length_app, <- !app_assoc.
    replace (room - length b - length (concat bs))%nat
      with (room - (length b + length (concat bs)))%nat by lia.
    by rewrite Nat.add_assoc.
Qed.

Lemma concatenateBuffers_concat (buffers : list ArrayBuffer) :
  concatenateBuffers buffers = Return (concat buffers).
Proof.
  unfold concatenateBuffers, Uint8Array_new.
  rewrite total_length_loop.
  pose proof (concat_loop buffers [] (length (concat buffers))) as Hloop.
  simpl in Hloop |- *. rewrite Hloop by lia.
  simpl. rewrite Nat.sub_diag. simpl. by rewrite app_nil_r.
Qed.

(** A typed array cut at any index, negative or not, and its two parts. *)
Lemma slice_split (a : list byte) (k : Z) :
  Uint8Array_slice a 0 (Some k) ++ Uint8Array_slice a k None = a.
Proof.
  unfold Uint8Array_slice.
  replace (relative_index (length a) 0) with 0%nat
    by (unfold relative_index; simpl; lia).
  rewrite Nat.sub_0_r, drop_0.
  set (i := relative_index (length a) k).
  assert (i <= length a)%nat.
  { unfold i, relative_index. destruct (Z.ltb_spec k 0); lia. }
  rewrite (take_ge (drop i a)) by (rewrite length_drop; lia).
  apply take_drop.
Qed.

(** A few runs of the utilities. *)

Example btoa_hello :
  Base64.btoa (js "hello") = Return (js "aGVsbG8=").
Proof. reflexivity. Qed.

Example atob_hello :
  Base64.atob (js "aGVs bG8=") = Return (js "hello").
Proof. reflexivity. Qed.

Example atob_undefined :
  Base64.atob (js "undefined") = Throw (DOMException "InvalidCharacterError").
Proof. reflexivity. Qed.

Example concatenateBuffers_three :
  concatenateBuffers [[x01; x02]; [x03]; [x04; x05]]
  = Return [x01; x02; x03; x04; x05].
Proof. reflexivity. Qed.

(** ** [atob] undoes [btoa] *)

Module Base64Facts.
Import Base64.

Ltac div_lia := zify; Z.to_euclidean_division_equations; lia.

Ltac split_tests :=
  repeat (match goal with
          | |- context [(?a <? ?b)] => destruct (N.ltb_spec a b)
          | |- context [(?a <=? ?b)] => destruct (N.leb_spec a b)
          | |- context [(?a =? ?b)] => destruct (N.eqb_spec a b)
          | H : context [(?a =? ?b)] |- _ => destruct (N.eqb_spec a b)
          end; cbn [andb orb negb] in *).

Lemma char_sextet_char (i : N) : i < 64 -> char_sextet (sextet_char i) = Some i.
Proof.
  intros Hi. unfold sextet_char.
  split_tests; unfold char_sextet; split_tests; try (f_equal; lia); lia.
Qed.

Lemma alphabet_not_equals (c : N) : alphabet c -> (c =? 61) = false.
Proof.
  intros (i & Hi & ->). unfold sextet_char.
  split_tests; split_tests; try reflexivity; lia.
Qed.

Lemma alphabet_not_whitespace (c : N) : alphabet c -> is_ascii_whitespace c = false.
Proof.
  intros (i & Hi & ->). unfold sextet_char.
  split_tests; unfold is_ascii_whitespace; split_tests; try reflexivity; lia.
Qed.

(** Induction on a list three elements at a time. *)
Lemma list_ind3 {A} (Q : list A -> Prop) :
  Q [] -> (forall a, Q [a]) -> (forall a b, Q [a; b]) ->
  (forall a b c l, Q l -> Q (a :: b :: c :: l)) ->
  forall l, Q l.
Proof.
  intros H0 H1 H2 H3 l.
  assert (H : Q l /\ (forall a, Q (a :: l)) /\ (forall a b, Q (a :: b :: l))).
  { induction l as [|x l (IH0 & IH1 & IH2)]; [by auto|].
    split; [apply IH1|]. split; [intros a; apply IH2|]. intros a b. by apply H3. }
  apply H.
Qed.

Lemma binary_forallb (s : jsstring) :
  binary s -> forallb (fun c => c <? 256) s = true.
Proof.
  intros H. apply forallb_forall. intros c Hc.
  apply N.ltb_lt. by apply (proj1 (List.Forall_forall _ _) H).
Qed.

Lemma binary_bytes (b : list byte) : binary (List.map Byte.to_N b).
Proof.
  apply List.Forall_forall. intros c Hc. apply in_map_iff in Hc as (x & <- & _).
  pose proof (Byte.to_N_bounded x). lia.
Qed.

Lemma encode_body_alphabet (s : jsstring) : binary s -> Forall alphabet (encode_body s).
Proof.
  induction s as [|a|a b|a b c s IHs] using list_ind3; intros Hs; simpl.
  - constructor.
  - inversion_clear Hs.
    repeat constructor; eexists; (split; [|reflexivity]); div_lia.
  - inversion_clear Hs as [|? ? ? Hs']. inversion_clear Hs'.
    repeat constructor; eexists; (split; [|reflexivity]); div_lia.
  - inversion_clear Hs as [|? ? ? Hs1]. inversion_clear Hs1 as [|? ? ? Hs2].
    inversion_clear Hs2.
    repeat (constructor; [eexists; (split; [|reflexivity]); div_lia|]).
    by apply IHs.
Qed.

Lemma encode_length (s : jsstring) :
  (length (encode_body s ++ padding s) mod 4 = 0)%nat.
Proof.
  induction s as [|a|a b|a b c s IHs] using list_ind3; try reflexivity.
  cbn [encode_body padding app length].
  replace (S (S (S (S (length (encode_body s ++ padding s))))))
    with (length (encode_body s ++ padding s) + 1 * 4)%nat by lia.
  by rewrite Nat.Div0.mod_add.
Qed.

Lemma encode_body_length (s : jsstring) :
  (length (encode_body s) mod 4 <> 1)%nat.
Proof.
  induction s as [|a|a b|a b c s IHs] using list_ind3; try (simpl; lia).
  cbn [encode_body length].
  replace (S (S (S (S (length (encode_body s))))))
    with (length (encode_body s) + 1 * 4)%nat by lia.
  by rewrite Nat.Div0.mod_add.
Qed.

Lemma padding_cases (s : jsstring) :
  padding s = [] \/ padding s = [61] \/ padding s = [61; 61].
Proof. induction s as [|a|a b|a b c s IHs] using list_ind3; simpl; auto. Qed.

Lemma filter_whitespace (data : jsstring) :
  Forall (fun c => is_ascii_whitespace c = false) data ->
  List.filter (fun c => negb (is_ascii_whitespace c)) data = data.
Proof.
  induction 1 as [|c l Hc _ IH]; simpl; [done|].
  by rewrite Hc, IH.
Qed.

(** The end of the data proper is never [=]. *)
Lemma ends_with_equals_rev (body : jsstring) :
  Forall alphabet body -> ends_with_equals (rev body) = false.
Proof.
  intros H. apply Forall_rev in H.
  destruct (rev body) as [|c r]; [done|].
  inversion_clear H. simpl. by apply alphabet_not_equals.
Qed.

Lemma strip_padding_encoded (s : jsstring) :
  binary s -> strip_padding (encode_body s ++ padding s) = encode_body s.
Proof.
  intros Hs. unfold strip_padding.
  rewrite encode_length. simpl.
  pose proof (ends_with_equals_rev _ (encode_body_alphabet s Hs)) as Hend.
  rewrite rev_app_distr.
  destruct (padding_cases s) as [-> | [-> | ->]]; simpl.
  - rewrite Hend. by rewrite app_nil_r.
  - rewrite Hend. apply rev_involutive.
  - apply rev_involutive.
Qed.

Lemma decode_encoded (s : jsstring) :
  binary s ->
  exists v, sextets (encode_body s) = Some v /\ decode_body v = s.
Proof.
  induction s as [|a|a b|a b c s IHs] using list_ind3; intros Hs.
  - by exists [].
  - inversion_clear Hs. simpl.
    rewrite !char_sextet_char by div_lia.
    eexists. split; [reflexivity|]. simpl. f_equal. div_lia.
  - inversion_clear Hs as [|? ? ? Hs']; inversion_clear Hs'. simpl.
    rewrite !char_sextet_char by div_lia.
    eexists. split; [reflexivity|]. simpl. f_equal; [|f_equal]; div_lia.
  - inversion_clear Hs as [|? ? ? Hs1]; inversion_clear Hs1 as [|? ? ? Hs2];
      inversion_clear Hs2 as [|? ? ? Hs3].
    destruct (IHs Hs3) as (v & Hv & Hd).
    cbn [encode_body sextets].
    rewrite !char_sextet_char by div_lia. rewrite Hv.
    eexists. split; [reflexivity|].
    cbn [decode_body]. rewrite Hd.
    f_equal; [|f_equal; [|f_equal]]; div_lia.
Qed.

Lemma btoa_binary (s : jsstring) :
  binary s -> btoa s = Return (encode_body s ++ padding s).
Proof. intros Hs. unfold btoa. by rewrite binary_forallb. Qed.

Lemma padding_not_whitespace (s : jsstring) :
  Forall (fun c => is_ascii_whitespace c = false) (padding s).
Proof. destruct (padding_cases s) as [-> | [-> | ->]]; repeat constructor. Qed.

Lemma atob_encoded (s : jsstring) :
  binary s -> atob (encode_body s ++ padding s) = Return s.
Proof.
  intros Hs. unfold atob.
  rewrite filter_whitespace.
  2:{ apply Forall_app. split; [|apply padding_not_whitespace].
      eapply Forall_impl; [by apply encode_body_alphabet|].
      apply alphabet_not_whitespace. }
  rewrite strip_padding_encoded by done.
  destruct (Nat.eqb_spec (length (encode_body s) mod 4) 1) as [E|_].
  { by apply encode_body_length in E. }
  destruct (decode_encoded s Hs) as (v & -> & ->). reflexivity.
Qed.

(** For every binary string, [atob(btoa(s))] is [s]. *)
Lemma atob_btoa (s : jsstring) :
  binary s -> (do t <- btoa s in atob t) = Return s.
Proof. intros Hs. rewrite btoa_binary by done. simpl. by apply atob_encoded. Qed.

End Base64Facts.

Lemma arrayBufferToBase64_returns (b : ArrayBuffer) :
  arrayBufferToBase64 b
  = Return (Base64.encode_body (List.map Byte.to_N b)
            ++ Base64.padding (List.map Byte.to_N b)).
Proof.
  rewrite arrayBufferToBase64_btoa.
  apply Base64Facts.btoa_binary, Base64Facts.binary_bytes.
Qed.

Lemma map_to_uint8_to_N (b : list byte) :
  List.map to_uint8 (List.map Byte.to_N b) = b.
Proof.
  induction b as [|x b IH]; simpl; [done|].
  by rewrite to_uint8_to_N, IH.
Qed.

(** What one side encodes, the other decodes to the same bytes. *)
Lemma wire_round_trip (b : ArrayBuffer) (text : jsstring) :
  arrayBufferToBase64 b = Return text -> base64ToArrayBuffer text = Return b.
Proof.
  rewrite arrayBufferToBase64_returns. intros [= <-].
  rewrite base64ToArrayBuffer_atob.
  rewrite Base64Facts.atob_encoded by apply Base64Facts.binary_bytes.
  simpl. by rewrite map_to_uint8_to_N.
Qed.

(** C9. Base64 round trip: for every byte buffer [b], encoding it with
    [arrayBufferToBase64] succeeds, and [base64ToArrayBuffer] of the text
    returns a buffer with exactly the bytes of [b]. *)
Theorem C9_base64_round_trip (b : ArrayBuffer) :
  (do text <- arrayBufferToBase64 b in base64ToArrayBuffer text) = Return b.
Proof.
  rewrite arrayBufferToBase64_returns. simpl.
  apply wire_round_trip, arrayBufferToBase64_returns.
Qed.

(** ** The local key store *)

Lemma truthy_spec (r : option jsstring) :
  truthy r = true <-> exists v, r = Some v /\ v <> [].
Proof.
  destruct r as [[|c v]|]; simpl; split; try done.
  - intros (v & [= <-] & Hv). done.
  - intros _. by exists (c :: v).
  - intros (v & Hv & _). done.
Qed.

Lemma key_names_forall (Q : string -> Prop) :
  (forall k, k ∈ key_names -> Q k)
  <-> Q "encryptionPublicKey" /\ Q "encryptionPrivateKey"
      /\ Q "signingPublicKey" /\ Q "signingPrivateKey".
Proof.
  unfold key_names. split.
  - intros H. repeat split; apply H; set_solver.
  - intros (H1 & H2 & H3 & H4) k Hk.
    repeat (apply elem_of_cons in Hk as [-> | Hk]; [done|]).
    by apply elem_of_nil in Hk.
Qed.

Lemma all_truthy (a b c d : option jsstring) :
  truthy a && truthy b && truthy c && truthy d = true
  <-> (exists v, a = Some v /\ v <> []) /\ (exists v, b = Some v /\ v <> [])
      /\ (exists v, c = Some v /\ v <> []) /\ (exists v, d = Some v /\ v <> []).
Proof.
  rewrite <- !truthy_spec.
  destruct (truthy a), (truthy b), (truthy c), (truthy d); simpl; intuition.
Qed.

Lemma getKeys_oncomplete_Some (store : ObjectStore) :
  is_Some (getKeys_oncomplete store) <-> all_present_and_nonempty store.
Proof.
  unfold all_present_and_nonempty. rewrite key_names_forall.
  etransitivity; [|apply all_truthy].
  unfold getKeys_oncomplete. cbv zeta.
  match goal with |- context [if ?t then _ else _] => destruct t eqn:E end.
  - split; [intros _; exact E | by eexists].
  - split; [by intros [? [=]] | intros E'].
    assert (false = true) as [=]. rewrite <- E. exact E'.
Qed.





(** ** Keys, encryption and signatures *)

Section CryptoFacts.
Context {P : Provider}.

Lemma generateKeyPair_shape :
  generateKeyPair (P := P)
  = Return {| publicKey := oaep_public (fst (rsa_oaep_keygen P));
              privateKey := oaep_private (snd (rsa_oaep_keygen P)) |}.
Proof. unfold generateKeyPair. simpl. by destruct (rsa_oaep_keygen P). Qed.

Lemma generateSigningKeyPair_shape :
  generateSigningKeyPair (P := P)
  = Return {| publicKey := pss_public (fst (rsa_pss_keygen P));
              privateKey := pss_private (snd (rsa_pss_keygen P)) |}.
Proof. unfold generateSigningKeyPair. simpl. by destruct (rsa_pss_keygen P). Qed.

Lemma generateAESKey_shape :
  generateAESKey (P := P) = Return (content_key P (aes256_keygen P)).
Proof. reflexivity. Qed.

(** Export followed by import, whatever the algorithm of the two. *)
Lemma export_import_public (key : CryptoKey P) (pk : rsa_public P)
  (name : AlgorithmName) (us : list KeyUsage) :
  spki_round_trip P -> extractable key = true -> material key = RsaPublic pk ->
  (do text <- exportPublicKey key in
   do keyData <- base64ToArrayBuffer text in
   Subtle.importKey (P := P) spki keyData name true us)
  = Subtle.importKey spki (spki_encode P pk) name true us.
Proof.
  intros Hrt Hext Hmat. unfold exportPublicKey, Subtle.exportKey.
  rewrite Hext, Hmat. simpl.
  rewrite arrayBufferToBase64_returns. simpl.
  by rewrite (wire_round_trip _ _ (arrayBufferToBase64_returns _)).
Qed.

Lemma export_import_private (key : CryptoKey P) (sk : rsa_private P)
  (name : AlgorithmName) (us : list KeyUsage) :
  pkcs8_round_trip P -> extractable key = true -> material key = RsaPrivate sk ->
  (do text <- exportPrivateKey key in
   do keyData <- base64ToArrayBuffer text in
   Subtle.importKey (P := P) pkcs8 keyData name true us)
  = Subtle.importKey pkcs8 (pkcs8_encode P sk) name true us.
Proof.
  intros Hrt Hext Hmat. unfold exportPrivateKey, Subtle.exportKey.
  rewrite Hext, Hmat. simpl.
  rewrite arrayBufferToBase64_returns. simpl.
  by rewrite (wire_round_trip _ _ (arrayBufferToBase64_returns _)).
Qed.

(** The keys the import functions return. *)
Lemma importSigningPublicKey_shape (text : jsstring) (key : CryptoKey P) :
  importSigningPublicKey text = Return key -> exists pk, key = pss_public pk.
Proof.
  unfold importSigningPublicKey.
  destruct (base64ToArrayBuffer text) as [d|]; simpl; [|done].
  destruct (spki_decode P d) as [pk|]; [|done].
  intros [= <-]. by exists pk.
Qed.

Lemma importPublicKey_shape (text : jsstring) (key : CryptoKey P) :
  importPublicKey text = Return key -> exists pk, key = oaep_public pk.
Proof.
  unfold importPublicKey.
  destruct (base64ToArrayBuffer text) as [d|]; simpl; [|done].
  destruct (spki_decode P d) as [pk|]; [|done].
  intros [= <-]. by exists pk.
Qed.

Lemma importPrivateKey_shape (text : jsstring) (key : CryptoKey P) :
  importPrivateKey text = Return key -> exists sk, key = oaep_private sk.
Proof.
  unfold importPrivateKey.
  destruct (base64ToArrayBuffer text) as [d|]; simpl; [|done].
  destruct (pkcs8_decode P d) as [sk|]; [|done].
  intros [= <-]. by exists sk.
Qed.

Lemma importSigningPrivateKey_shape (text : jsstring) (key : CryptoKey P) :
  importSigningPrivateKey text = Return key -> exists sk, key = pss_private sk.
Proof.
  unfold importSigningPrivateKey.
  destruct (base64ToArrayBuffer text) as [d|]; simpl; [|done].
  destruct (pkcs8_decode P d) as [sk|]; [|done].
  intros [= <-]. by exists sk.
Qed.

(** A fresh array filled by two [set] calls holds the two parts. *)
Lemma ciphertextWithTag_app (encryptedFileBuffer authTag : ArrayBuffer) :
  ReceiveFiles.ciphertextWithTag encryptedFileBuffer authTag
  = Return (encryptedFileBuffer ++ authTag).
Proof.
  unfold ReceiveFiles.ciphertextWithTag, Uint8Array_new, Uint8Array_set.
  rewrite length_replicate. simpl.
  destruct (Nat.leb_spec (length encryptedFileBuffer)
              (length encryptedFileBuffer + length authTag)) as [_|]; [|lia].
  simpl. rewrite length_app, length_drop, length_replicate.
  destruct (Nat.leb_spec (length encryptedFileBuffer + length authTag)
              (length encryptedFileBuffer
               + (length encryptedFileBuffer + length authTag
                  - length encryptedFileBuffer))) as [_|]; [|lia].
  f_equal. rewrite take_app_length.
  rewrite drop_app_ge by lia.
  rewrite drop_drop, drop_replicate.
  replace (length encryptedFileBuffer + length authTag
           - (length encryptedFileBuffer
              + (length encryptedFileBuffer + length authTag
                 - length encryptedFileBuffer)))%nat with 0%nat by lia.
  simpl. by rewrite app_nil_r.
Qed.

Lemma split_ciphertext_app (encrypted : list byte) :
  fst (SendFile.split_ciphertext encrypted) ++ snd (SendFile.split_ciphertext encrypted)
  = encrypted.
Proof. unfold SendFile.split_ciphertext. simpl. apply slice_split. Qed.

Lemma split_ciphertext_lengths (encrypted : list byte) :
  (16 <= length encrypted)%nat ->
  length (fst (SendFile.split_ciphertext encrypted)) = (length encrypted - 16)%nat
  /\ length (snd (SendFile.split_ciphertext encrypted)) = 16%nat.
Proof.
  intros Hlen. unfold SendFile.split_ciphertext, SendFile.authTagLength,
    Uint8Array_slice, relative_index. simpl.
  destruct (Z.ltb_spec (Z.of_nat (length encrypted) - 16) 0) as [|_]; [lia|].
  rewrite !length_take, !length_drop. lia.
Qed.

End CryptoFacts.

(** ** The small platform obeys the laws *)

Module ToyFacts.

Lemma tag_length (k iv : list byte) : length (Toy.tag k iv) = 16%nat.
Proof.
  unfold Toy.tag. rewrite length_take, !length_app, repeat_length. lia.
Qed.

Lemma gcm_correct : gcm_correct Toy.provider.
Proof.
  intros k iv p. cbn -[bool_decide drop take Toy.tag length Nat.sub].
  rewrite length_app, tag_length.
  replace (length p + 16 - 16)%nat with (length p) by lia.
  rewrite drop_app_length, take_app_length.
  by rewrite (bool_decide_eq_true_2 _ eq_refl).
Qed.

Lemma gcm_tag_appended : gcm_tag_appended Toy.provider.
Proof. intros k iv p. simpl. by rewrite length_app, tag_length. Qed.

Lemma oaep_correct : oaep_correct Toy.provider.
Proof.
  intros pk sk m Hm _. cbn -[bool_decide] in *.
  apply bool_decide_eq_true_1 in Hm as ->.
  eexists. split; [reflexivity|]. cbn -[bool_decide].
  by rewrite (bool_decide_eq_true_2 _ eq_refl).
Qed.

Lemma oaep_rejects_other_keys : oaep_rejects_other_keys Toy.provider.
Proof.
  intros pk sk m c Hm [= <-]. cbn -[bool_decide] in *.
  apply bool_decide_eq_false_1 in Hm. by rewrite (bool_decide_eq_false_2 _ Hm).
Qed.

Lemma spki_round_trip : spki_round_trip Toy.provider.
Proof. intros pk. reflexivity. Qed.

Lemma pkcs8_round_trip : pkcs8_round_trip Toy.provider.
Proof. intros sk. reflexivity. Qed.

End ToyFacts.

(** ** Round trips, signatures and imports *)

(** C4. AEAD round trip: for every byte sequence [file] (the empty one
    included), every content key and every nonce, the output of
    [encryptFile], split at its 16-byte tail into ciphertext and tag and
    joined again as the receive handler does, decrypts with the same key
    bytes and nonce to [file]; so does the output as it is. *)
Theorem C4_aead_round_trip (P : Provider) (file k nonce : list byte) :
  gcm_correct P -> gcm_tag_appended P ->
  exists encrypted,
    encryptFile file (content_key P k) nonce = Return encrypted
    /\ decryptFile encrypted (content_key P k) nonce = Return file
    /\ (let '(ciphertext, authTag) := SendFile.split_ciphertext encrypted in
        length ciphertext = length file /\ length authTag = 16%nat
        /\ (do joined <- ReceiveFiles.ciphertextWithTag ciphertext authTag in
            decryptFile joined (content_key P k) nonce) = Return file
        /\ (do joined <- ReceiveFiles.ciphertextWithTag ciphertext authTag in
            decryptFile joined (unwrapped_key P k) nonce) = Return file).
Proof.
  intros Hgcm Hlen. exists (gcm_encrypt P k nonce file).
  assert (Hdec : forall us, decrypt ∈ us ->
            decryptFile (gcm_encrypt P k nonce file) (aes_key P us k) nonce
            = Return file).
  { intros us Hus. unfold decryptFile, Subtle.decrypt_, Subtle.has_usage. simpl.
    rewrite bool_decide_eq_true_2 by done. simpl.
    rewrite Hlen, Hgcm.
    destruct (Nat.ltb_spec (length file + 16) 16); [lia|done]. }
  split; [reflexivity|].
  split; [apply Hdec; set_solver|].
  pose proof (split_ciphertext_app (gcm_encrypt P k nonce file)) as Happ.
  pose proof (split_ciphertext_lengths (gcm_encrypt P k nonce file)) as Hl.
  rewrite Hlen in Hl.
  destruct (SendFile.split_ciphertext (gcm_encrypt P k nonce file))
    as [ciphertext authTag]. simpl in *.
  destruct Hl as [Hc Ht]; [lia|].
  rewrite ciphertextWithTag_app, Happ. simpl.
  repeat split; [lia | done | apply Hdec; set_solver | apply Hdec; set_solver].
Qed.

Lemma C4_aead_round_trip_hello :
  exists encrypted,
    encryptFile [x68; x65; x6c; x6c; x6f]
      (content_key Toy.provider (repeat x07 32)) (repeat x2a 12)
    = Return encrypted
    /\ decryptFile encrypted (content_key Toy.provider (repeat x07 32)) (repeat x2a 12)
       = Return [x68; x65; x6c; x6c; x6f]
    /\ (let '(ciphertext, authTag) := SendFile.split_ciphertext encrypted in
        length ciphertext = 5%nat /\ length authTag = 16%nat
        /\ (do joined <- ReceiveFiles.ciphertextWithTag ciphertext authTag in
            decryptFile joined (content_key Toy.provider (repeat x07 32)) (repeat x2a 12))
           = Return [x68; x65; x6c; x6c; x6f]
        /\ (do joined <- ReceiveFiles.ciphertextWithTag ciphertext authTag in
            decryptFile joined (unwrapped_key Toy.provider (repeat x07 32)) (repeat x2a 12))
           = Return [x68; x65; x6c; x6c; x6f]).
Proof.
  exact (C4_aead_round_trip Toy.provider [x68; x65; x6c; x6c; x6f]
           (repeat x07 32) (repeat x2a 12)
           ToyFacts.gcm_correct ToyFacts.gcm_tag_appended).
Defined.









(** ** The receive handler *)

(** Follows a handler step by step from an equation [H] for its outcome:
    one case per place where it can stop. *)
Ltac follow H :=
  repeat (lazymatch type of H with
          | match ?c with Return _ => _ | Throw _ => _ end = _ => destruct c eqn:?
          | (match ?c with Return _ => _ | Throw _ => _ end) _ = _ => destruct c eqn:?
          | (match ?c with Some _ => _ | None => _ end) _ = _ => destruct c eqn:?
          | (if negb ?c then _ else _) _ = _ =>
              destruct c eqn:?; cbv beta iota delta [negb] in H
          | (let '(_, _) := ?c in _) _ = _ => destruct c eqn:?
          end;
          cbv beta iota zeta in H).

(** Membership in an explicit list of events, case by case. *)
Ltac in_cases Hin :=
  repeat (apply elem_of_cons in Hin as [Hin | Hin]; [simplify_eq |]);
  try (by apply elem_of_nil in Hin).

Section ReceiveFacts.
Context {P : Provider}.
Context (JSON_parse : JSON_parser).
Context (db : completion ObjectStore).
Context (downloadFile : jsstring -> completion DownloadedFile.t).

Abbreviation Event := (ReceiveFiles.Event (P := P)).
Abbreviation Component := (ReceiveFiles.Component (P := P)).

Lemma ordered_split (verified : Prop) (pre post : list Event) (ev : Event) :
  ordered verified (pre ++ ev :: post) ->
  ReceiveFiles.is_decryption ev || ReceiveFiles.is_save ev = true ->
  verified \/ exists v, v ∈ pre /\ passes v.
Proof.
  revert verified. induction pre as [|x pre IH]; intros verified; simpl.
  - intros [H _] Hev. left. by apply H.
  - intros [_ H] Hev. destruct (IH _ H Hev) as [[Hv | Hx] | (v & Hin & Hv)].
    + by left.
    + right. exists x. split; [set_solver | done].
    + right. exists v. split; [set_solver | done].
Qed.

Ltac unfold_receive H :=
  cbv beta iota zeta delta
    [ReceiveFiles.download ReceiveFiles.call ReceiveFiles.record
     ReceiveFiles.setState ReceiveFiles.setError ReceiveFiles.setProgress
     ReceiveFiles.setSelectedFile ReceiveFiles.state ReceiveFiles.error
     ReceiveFiles.progress ReceiveFiles.selectedFile ReceiveFiles.log
     then_ try_ settle pure update] in H.

(** What the [try] block does to the log, and how it ends. *)
Lemma download_guarded (file : InboxFile.t) (w w' : Component) (c : completion unit) :
  ReceiveFiles.download JSON_parse db downloadFile file w = (c, w') ->
  exists new,
    ReceiveFiles.log w' = ReceiveFiles.log w ++ new
    /\ ordered False new
    /\ (forall signature data publicKey,
          ReceiveFiles.call_verifySignature signature data publicKey ∈ new ->
          verifySignature signature data publicKey <> Return true ->
          (forall ev, ev ∈ new ->
             ReceiveFiles.is_decryption ev = false /\ ReceiveFiles.is_save ev = false)
          /\ (exists e, c = Throw e)
          /\ (verifySignature signature data publicKey = Return false ->
              c = Throw verification_failed)).
Proof.
  intros H. unfold_receive H. follow H.
  all: injection H as <- <-; cbn [ReceiveFiles.log].
  all: rewrite <- ?app_assoc.
  all: first [ eexists; split; [reflexivity|]
             | exists []; split; [by rewrite app_nil_r|] ].
  all: cbn [app ordered passes ReceiveFiles.is_decryption ReceiveFiles.is_save orb].
  all: (split; [repeat split; intros; try discriminate; eauto 10|]).
  all: intros signature data publicKey Hin Hne.
  all: in_cases Hin.
  all: try congruence.
  all: (split; [intros ev Hev;
                   repeat (apply elem_of_cons in Hev as [-> | Hev]; [by split|]);
                   by apply elem_of_nil in Hev|]).
  all: (split; [by eexists|]).
  all: try done.
  all: intros Hf; congruence.
Qed.

(** Which string the handler imports as the sender's signing key. *)
Lemma download_imports (file : InboxFile.t) (w w' : Component) (c : completion unit) :
  ReceiveFiles.download JSON_parse db downloadFile file w = (c, w') ->
  exists new,
    ReceiveFiles.log w' = ReceiveFiles.log w ++ new
    /\ (forall base64Key,
          ReceiveFiles.call_importSigningPublicKey base64Key ∈ new ->
          exists downloadedFile v,
            downloadFile (InboxFile.fileId file) = Return downloadedFile
            /\ ReceiveFiles.senderSigningKey JSON_parse
                 (DownloadedFile.senderPublicKey downloadedFile) = Return v
            /\ base64Key = ToString v)
    /\ (forall signature data publicKey,
          ReceiveFiles.call_verifySignature signature data publicKey ∈ new ->
          exists base64Key,
            ReceiveFiles.call_importSigningPublicKey base64Key ∈ new
            /\ importSigningPublicKey base64Key = Return publicKey).
Proof.
  intros H. unfold_receive H. follow H.
  all: injection H as <- <-; cbn [ReceiveFiles.log].
  all: rewrite <- ?app_assoc.
  all: first [ eexists; split; [reflexivity|]
             | exists []; split; [by rewrite app_nil_r|] ].
  all: cbn [app].
  all: (split;
     [ intros base64Key Hin; in_cases Hin; eauto 10
     | intros signature data publicKey Hin; in_cases Hin;
       (eexists; split; [by left | done]) ]).
Qed.


(** The handler around the [try] block keeps the log of the block, and
    turns an exception into the error state. *)
Lemma handleDownload_outcome (file : InboxFile.t) (w0 : Component) :
  exists w1 c w',
    ReceiveFiles.log w1 = ReceiveFiles.log w0
    /\ ReceiveFiles.download JSON_parse db downloadFile file w1 = (c, w')
    /\ ReceiveFiles.log
         (snd (ReceiveFiles.handleDownload JSON_parse db downloadFile file w0))
       = ReceiveFiles.log w'
    /\ (forall e, c = Throw e ->
        ReceiveFiles.state
          (snd (ReceiveFiles.handleDownload JSON_parse db downloadFile file w0))
        = ReceiveFiles.st_error
        /\ ReceiveFiles.error
             (snd (ReceiveFiles.handleDownload JSON_parse db downloadFile file w0))
           = Some e).
Proof.
  unfold ReceiveFiles.handleDownload.
  cbv beta iota zeta delta
    [ReceiveFiles.setState ReceiveFiles.setError ReceiveFiles.setProgress
     ReceiveFiles.setSelectedFile then_ try_ settle pure update].
  match goal with
  | |- context [ReceiveFiles.download _ _ _ _ ?w] => exists w
  end.
  match goal with
  | |- context [ReceiveFiles.download ?a ?b ?c ?d ?w] =>
      destruct (ReceiveFiles.download a b c d w) as [[u|e] w'] eqn:Hd
  end.
  - exists (Return u), w'. split; [done|]. split; [done|]. split; [done|].
    intros e [=].
  - exists (Throw e), w'. split; [done|]. split; [done|]. split; [done|].
    intros e' [= <-]. done.
Qed.

End ReceiveFacts.

(** C1. In every receive operation the signature is verified, and found
    valid, before any decryption: in the log of calls of [handleDownload]
    each call of [decryptAESKey] or [decryptFile], and the save of the
    plaintext, comes after a call of [verifySignature] that returned true;
    if [verifySignature] returns false (or throws), neither
    [decryptAESKey] nor [decryptFile] is called, nothing is saved, and the
    handler ends in the error state, with the verification failure as its
    error when the result was false. *)
Theorem C1_verify_before_decrypt (P : Provider) (JSON_parse : JSON_parser)
  (db : completion ObjectStore)
  (downloadFile : jsstring -> completion DownloadedFile.t)
  (file : InboxFile.t) (w0 : ReceiveFiles.Component (P := P)) :
  let w := snd (ReceiveFiles.handleDownload JSON_parse db downloadFile file w0) in
  exists new,
    ReceiveFiles.log w = ReceiveFiles.log w0 ++ new
    /\ (forall pre ev post,
          new = pre ++ ev :: post ->
          ReceiveFiles.is_decryption ev || ReceiveFiles.is_save ev = true ->
          exists signature data publicKey,
            ReceiveFiles.call_verifySignature signature data publicKey ∈ pre
            /\ verifySignature signature data publicKey = Return true)
    /\ (forall signature data publicKey,
          ReceiveFiles.call_verifySignature signature data publicKey ∈ new ->
          verifySignature signature data publicKey <> Return true ->
          (forall ev, ev ∈ new ->
             ReceiveFiles.is_decryption ev = false /\ ReceiveFiles.is_save ev = false)
          /\ ReceiveFiles.state w = ReceiveFiles.st_error
          /\ (verifySignature signature data publicKey = Return false ->
              ReceiveFiles.error w = Some verification_failed)).
Proof.
  intros w. subst w.
  destruct (handleDownload_outcome JSON_parse db downloadFile file w0)
    as (w1 & c & w' & Hlog1 & Hd & Hlog & Hthrow).
  destruct (download_guarded JSON_parse db downloadFile file w1 w' c Hd)
    as (new & Hnew & Hord & Hfail).
  exists new. split; [by rewrite Hlog, Hnew, Hlog1|]. split.
  - intros pre ev post -> Hev.
    destruct (ordered_split _ _ _ _ Hord Hev) as [[] | (v & Hin & Hv)].
    destruct v; try done. eauto.
  - intros signature data publicKey Hin Hne.
    destruct (Hfail signature data publicKey Hin Hne) as (Hno & [e ->] & Hmsg).
    destruct (Hthrow e eq_refl) as [Hstate Herror].
    split; [done|]. split; [done|].
    intros Hf. specialize (Hmsg Hf) as [= ->]. done.
Qed.

(** A download whose signature is not the sender's: the handler stops at
    the verification. *)
Lemma C1_forged_signature_stops :
  let w := Scenario.bob_receives (Toy.forged Scenario.received) in
  ReceiveFiles.state w = ReceiveFiles.st_error
  /\ ReceiveFiles.error w = Some verification_failed
  /\ forall ev, ev ∈ ReceiveFiles.log w ->
       ReceiveFiles.is_decryption ev = false /\ ReceiveFiles.is_save ev = false.
Proof.
  intros w.
  destruct (C1_verify_before_decrypt Toy.provider Toy.parse_bundle
              (Return (storeKeys Scenario.bob ∅))
              (fun _ => Return (Toy.forged Scenario.received))
              Toy.inbox_entry ReceiveFiles.initial)
    as (new & Hlog & _ & Hfail).
  change (ReceiveFiles.log w = new) in Hlog. subst new.
  destruct (Hfail [x00; x00; x00]
              (DownloadedFile.encryptedFile Scenario.received
               ++ repeat x2a 12 ++ Toy.tag (repeat x07 32) (repeat x2a 12))
              (pss_public (P := Toy.provider) x0b))
    as (Hno & Hstate & Herr).
  - vm_compute. right. right. left.
  - vm_compute. discriminate.
  - split; [exact Hstate|]. split; [|exact Hno].
    apply Herr. vm_compute. reflexivity.
Defined.

(** The envelope Alice uploaded, downloaded by Bob: the plaintext is saved
    under the name of the file. *)
Example transfer_delivers_hello :
  let w := Scenario.bob_receives Scenario.received in
  ReceiveFiles.state w = ReceiveFiles.st_success
  /\ last (ReceiveFiles.log w)
     = Some (ReceiveFiles.save_file (js "hello.txt") (SendFile.contents Toy.hello)).
Proof. vm_compute. by split. Qed.

(** ** The send handler *)

Section SendFacts.
Context {P : Provider}.
Context (JSON_parse : JSON_parser).
Context (db : completion ObjectStore).
Context (sendFile : SendFilePayload.t -> completion (jsstring * jsstring)).

Abbreviation SendComponent := (SendFile.Component (P := P)).

Ltac unfold_send H :=
  cbv beta iota zeta delta
    [SendFile.upload SendFile.call SendFile.record
     SendFile.setState SendFile.setError SendFile.setProgress
     SendFile.state SendFile.error SendFile.progress SendFile.selectedFile
     SendFile.receiverData SendFile.log
     then_ try_ settle pure update] in H.

(** What the [try] block hands to the network, and which string it imports
    as the receiver's encryption key. *)
Lemma upload_envelope (selectedFile : SendFile.File)
  (receiverData : SendFile.ReceiverData) (w w' : SendComponent)
  (c : completion unit) :
  SendFile.upload JSON_parse db sendFile selectedFile receiverData w = (c, w') ->
  exists new,
    SendFile.log w' = SendFile.log w ++ new
    /\ (forall payload,
          SendFile.call_sendFile payload ∈ new ->
          exists keys,
            getKeys db = Return (Some keys)
            /\ SendFilePayload.senderPublicKey payload = signingPublicKey keys
            /\ SendFilePayload.receiverId payload = SendFile.userId receiverData
            /\ SendFilePayload.fileName payload = SendFile.name selectedFile)
    /\ (forall base64Key,
          SendFile.call_importPublicKey base64Key ∈ new ->
          exists v,
            SendFile.receiverEncryptionKey JSON_parse
              (SendFile.publicKey receiverData) = Return v
            /\ base64Key = ToString v)
    /\ (c = Return tt ->
        exists payload,
          SendFile.call_sendFile payload ∈ new /\ returns (sendFile payload)).
Proof.
  intros H. unfold_send H. follow H.
  all: injection H as <- <-; cbn [SendFile.log].
  all: rewrite <- ?app_assoc.
  all: first [ eexists; split; [reflexivity|]
             | exists []; split; [by rewrite app_nil_r|] ].
  all: cbn [app].
  all: (split; [intros payload Hin; in_cases Hin; eauto 10|]).
  all: (split; [intros base64Key Hin; in_cases Hin; eauto 10|]).
  all: intros Hc; try discriminate Hc.
  eexists. split; [do 8 right; left|]. by eexists.
Qed.


Lemma handleSend_outcome (selectedFile : SendFile.File)
  (receiverData : SendFile.ReceiverData) (w0 : SendComponent) :
  SendFile.selectedFile w0 = Some selectedFile ->
  SendFile.receiverData w0 = Some receiverData ->
  exists w1 c w',
    SendFile.log w1 = SendFile.log w0
    /\ SendFile.upload JSON_parse db sendFile selectedFile receiverData w1 = (c, w')
    /\ SendFile.log (snd (SendFile.handleSend JSON_parse db sendFile w0))
       = SendFile.log w'
    /\ (SendFile.state (snd (SendFile.handleSend JSON_parse db sendFile w0))
        = SendFile.st_success -> c = Return tt).
Proof.
  intros Hf Hr. unfold SendFile.handleSend. rewrite Hf, Hr.
  cbv beta iota zeta delta
    [SendFile.setState SendFile.setError SendFile.setProgress
     then_ try_ settle pure update].
  match goal with
  | |- context [SendFile.upload _ _ _ _ _ ?w] => exists w
  end.
  match goal with
  | |- context [SendFile.upload ?a ?b ?c ?d ?e ?w] =>
      destruct (SendFile.upload a b c d e w) as [[[]|e'] w'] eqn:Hd
  end.
  - exists (Return tt), w'. split; [done|]. split; [done|]. split; done.
  - exists (Throw e'), w'. split; [done|]. split; [done|]. split; [done|].
    intros [=].
Qed.

End SendFacts.

(** C3, as stated, fails: Alice's send succeeds, and the [senderPublicKey]
    of the envelope is her signing public key alone, not the bundle of her
    two public keys (it is not even a bundle: parsing it fails). *)
Lemma C3_envelope_without_bundle :
  SendFile.state Scenario.alice_sent = SendFile.st_success
  /\ SendFile.uploaded Scenario.alice_sent = [Scenario.envelope]
  /\ SendFilePayload.senderPublicKey Scenario.envelope
     = signingPublicKey Scenario.alice
  /\ SendFilePayload.senderPublicKey Scenario.envelope
     <> combinedPublicKey (encryptionPublicKey Scenario.alice)
          (signingPublicKey Scenario.alice)
  /\ Toy.parse_bundle (SendFilePayload.senderPublicKey Scenario.envelope)
     = Throw SyntaxError.
Proof. vm_compute. repeat split; discriminate. Qed.

(** C3, amended. The envelope assembled by the send operation carries, in
    its [senderPublicKey] field, the sender's signing public key as the key
    store holds it (one key, not a bundle of two): every envelope handed to
    the network has this field equal to [keys.signingPublicKey], and every
    successful send hands over such an envelope. *)
Theorem C3_envelope_sender_key (P : Provider) (JSON_parse : JSON_parser)
  (db : completion ObjectStore)
  (sendFile : SendFilePayload.t -> completion (jsstring * jsstring))
  (selectedFile : SendFile.File) (receiverData : SendFile.ReceiverData)
  (w0 : SendFile.Component (P := P)) :
  SendFile.selectedFile w0 = Some selectedFile ->
  SendFile.receiverData w0 = Some receiverData ->
  let w := snd (SendFile.handleSend JSON_parse db sendFile w0) in
  exists new,
    SendFile.log w = SendFile.log w0 ++ new
    /\ (forall payload,
          SendFile.call_sendFile payload ∈ new ->
          exists keys,
            getKeys db = Return (Some keys)
            /\ SendFilePayload.senderPublicKey payload = signingPublicKey keys)
    /\ (SendFile.state w = SendFile.st_success ->
        exists payload,
          SendFile.call_sendFile payload ∈ new /\ returns (sendFile payload)).
Proof.
  intros Hf Hr w. subst w.
  destruct (handleSend_outcome JSON_parse db sendFile _ _ w0 Hf Hr)
    as (w1 & c & w' & Hlog1 & Hup & Hlog & Hok).
  destruct (upload_envelope JSON_parse db sendFile _ _ w1 w' c Hup)
    as (new & Hnew & Hpay & _ & Hsent).
  exists new. split; [by rewrite Hlog, Hnew, Hlog1|]. split.
  - intros payload Hin. destruct (Hpay payload Hin) as (keys & Hk & Hs & _).
    eauto.
  - intros Hs. apply Hsent, Hok, Hs.
Qed.

Lemma C3_envelope_sender_key_alice :
  exists new,
    SendFile.log Scenario.alice_sent = [] ++ new
    /\ (forall payload,
          SendFile.call_sendFile payload ∈ new ->
          exists keys,
            getKeys (Return (storeKeys Scenario.alice ∅)) = Return (Some keys)
            /\ SendFilePayload.senderPublicKey payload = signingPublicKey keys)
    /\ (SendFile.state Scenario.alice_sent = SendFile.st_success ->
        exists payload,
          SendFile.call_sendFile payload ∈ new
          /\ returns (Toy.accept_upload payload)).
Proof.
  exact (C3_envelope_sender_key Toy.provider Toy.parse_bundle
           (Return (storeKeys Scenario.alice ∅)) Toy.accept_upload
           Toy.hello Scenario.bob_entry Scenario.alice_ready eq_refl eq_refl).
Defined.

(** ** Parsing of key bundles *)

Lemma parse_or_fallback_cases (JSON_parse : JSON_parser) (text field : jsstring) :
  (exists v, parse_or_fallback JSON_parse text field = Return v)
  /\ ((throws (JSON_parse text) \/ JSON_parse text = Return JNull
       \/ JSON_parse text = Return JUndefined) ->
      parse_or_fallback JSON_parse text field = Return (JString text))
  /\ (forall fields, JSON_parse text = Return (JObject fields) ->
      parse_or_fallback JSON_parse text field = Return (own_property fields field)).
Proof.
  unfold parse_or_fallback.
  destruct (JSON_parse text) as [[| | | | | |]|e]; simpl;
    (split; [by eexists|]); (split; [|by intros fs [= <-]]);
    try done; intros [[e' [=]] | [[=] | [=]]].
Qed.

(** C6, as stated, fails on the receive path: the [senderPublicKey] of the
    envelope Bob downloads is not JSON, and the handler takes the entire
    string as a signing public key, importing it with
    [importSigningPublicKey] (RSA-PSS, usage verify) and verifying the
    signature with it; it is not treated as an encryption public key. *)
Lemma C6_receive_fallback_is_signing_key :
  let text := DownloadedFile.senderPublicKey Scenario.received in
  let w := Scenario.bob_receives Scenario.received in
  Toy.parse_bundle text = Throw SyntaxError
  /\ ReceiveFiles.senderSigningKey Toy.parse_bundle text = Return (JString text)
  /\ ReceiveFiles.log w !! 0%nat = Some (ReceiveFiles.call_importSigningPublicKey text)
  /\ importSigningPublicKey text = Return (pss_public (P := Toy.provider) x0b)
  /\ exists signature data,
       ReceiveFiles.log w !! 2%nat
       = Some (ReceiveFiles.call_verifySignature signature data
                 (pss_public (P := Toy.provider) x0b))
       /\ algorithm (pss_public (P := Toy.provider) x0b) = RSA_PSS
       /\ ReceiveFiles.state w = ReceiveFiles.st_success.
Proof.
  vm_compute. split; [done|]. split; [done|]. split; [done|]. split; [done|].
  eexists _, _. split; [reflexivity|]. split; reflexivity.
Qed.

(** C6, amended. Parsing a key bundle never throws, on the send path and
    on the receive path: for every input string the parser returns the key
    field of the parsed value ([encryption] when sending, [signing] when
    receiving; undefined when the value has no such field), or, when
    [JSON.parse] throws or yields null, falls back to the entire string.
    The send handler imports what it gets as the receiver's encryption
    public key, the receive handler as the sender's signing public key; so
    a string that is not JSON is taken whole as a bare encryption public
    key when sending and as a bare signing public key when receiving. *)
Theorem C6_key_parsing_never_throws (JSON_parse : JSON_parser) :
  (forall text,
     (exists v, SendFile.receiverEncryptionKey JSON_parse text = Return v)
     /\ (exists v, ReceiveFiles.senderSigningKey JSON_parse text = Return v)
     /\ ((throws (JSON_parse text) \/ JSON_parse text = Return JNull
          \/ JSON_parse text = Return JUndefined) ->
         SendFile.receiverEncryptionKey JSON_parse text = Return (JString text)
         /\ ReceiveFiles.senderSigningKey JSON_parse text = Return (JString text))
     /\ (forall fields, JSON_parse text = Return (JObject fields) ->
         SendFile.receiverEncryptionKey JSON_parse text
         = Return (own_property fields (js "encryption"))
         /\ ReceiveFiles.senderSigningKey JSON_parse text
            = Return (own_property fields (js "signing"))))
  /\ (forall (P : Provider) db sendFile selectedFile receiverData
        (w w' : SendFile.Component (P := P)) c base64Key,
        throws (JSON_parse (SendFile.publicKey receiverData)) ->
        SendFile.log w = [] ->
        SendFile.upload JSON_parse db sendFile selectedFile receiverData w = (c, w') ->
        SendFile.call_importPublicKey base64Key ∈ SendFile.log w' ->
        base64Key = SendFile.publicKey receiverData)
  /\ (forall (P : Provider) db downloadFile file downloadedFile
        (w w' : ReceiveFiles.Component (P := P)) c base64Key,
        downloadFile (InboxFile.fileId file) = Return downloadedFile ->
        throws (JSON_parse (DownloadedFile.senderPublicKey downloadedFile)) ->
        ReceiveFiles.log w = [] ->
        ReceiveFiles.download JSON_parse db downloadFile file w = (c, w') ->
        ReceiveFiles.call_importSigningPublicKey base64Key ∈ ReceiveFiles.log w' ->
        base64Key = DownloadedFile.senderPublicKey downloadedFile).
Proof.
  split; [|split].
  - intros text.
    unfold SendFile.receiverEncryptionKey, ReceiveFiles.senderSigningKey.
    destruct (parse_or_fallback_cases JSON_parse text (js "encryption"))
      as (He1 & He2 & He3).
    destruct (parse_or_fallback_cases JSON_parse text (js "signing"))
      as (Hs1 & Hs2 & Hs3).
    split; [done|]. split; [done|]. split; [by auto|].
    intros fields Hf. by split; [apply He3 | apply Hs3].
  - intros P db sendFile selectedFile receiverData w w' c base64Key Hthrow Hw Hup Hin.
    destruct (upload_envelope JSON_parse db sendFile _ _ w w' c Hup)
      as (new & Hnew & _ & Himp & _).
    rewrite Hnew, Hw in Hin. destruct (Himp base64Key Hin) as (v & Hv & ->).
    unfold SendFile.receiverEncryptionKey in Hv.
    destruct (parse_or_fallback_cases JSON_parse (SendFile.publicKey receiverData)
                (js "encryption")) as (_ & Hfb & _).
    rewrite Hfb in Hv by auto. by injection Hv as <-.
  - intros P db downloadFile file downloadedFile w w' c base64Key Hd Hthrow Hw Hdl Hin.
    destruct (download_imports JSON_parse db downloadFile file w w' c Hdl)
      as (new & Hnew & Himp & _).
    rewrite Hnew, Hw in Hin.
    destruct (Himp base64Key Hin) as (d & v & Hd' & Hv & ->).
    rewrite Hd in Hd'. injection Hd' as <-.
    unfold ReceiveFiles.senderSigningKey in Hv.
    destruct (parse_or_fallback_cases JSON_parse
                (DownloadedFile.senderPublicKey downloadedFile) (js "signing"))
      as (_ & Hfb & _).
    rewrite Hfb in Hv by auto. by injection Hv as <-.
Qed.

(** The two parsers on Bob's directory entry (a bundle) and on Alice's
    bare signing key. *)
Lemma C6_key_parsing_examples :
  SendFile.receiverEncryptionKey Toy.parse_bundle
    (SendFile.publicKey Scenario.bob_entry)
  = Return (JString (encryptionPublicKey Scenario.bob))
  /\ ReceiveFiles.senderSigningKey Toy.parse_bundle
       (signingPublicKey Scenario.alice)
     = Return (JString (signingPublicKey Scenario.alice)).
Proof.
  split.
  - apply (proj2 (proj2 (proj2 (proj1 (C6_key_parsing_never_throws Toy.parse_bundle)
                                  (SendFile.publicKey Scenario.bob_entry))))
             [(js "encryption", JString (encryptionPublicKey Scenario.bob));
              (js "signing", JString (signingPublicKey Scenario.bob))]).
    reflexivity.
  - apply (proj1 (proj2 (proj2 (proj1 (C6_key_parsing_never_throws Toy.parse_bundle)
                                  (signingPublicKey Scenario.alice))))).
    left. by eexists.
Defined.

(** ** The digest on both sides *)





(** * Further properties of the code *)

(** ** [crypto.ts] *)

Module ToyMoreFacts.

Lemma pss_correct : pss_correct Toy.provider.
Proof.
  intros pk sk salt d Hm. cbn -[bool_decide] in *.
  apply bool_decide_eq_true_1 in Hm as ->.
  by rewrite (bool_decide_eq_true_2 _ eq_refl).
Qed.

Lemma aes256_keygen_length : aes256_keygen_length Toy.provider.
Proof. reflexivity. Qed.

Lemma random_values_length : random_values_length Toy.provider.
Proof. intros n. apply repeat_length. Qed.

End ToyMoreFacts.

(** X1. [concatenateBuffers] returns the bytes of its buffers end to end,
    whatever their number and lengths (none, or empty ones, included): the
    typed-array writes never go out of bounds. *)
Theorem concatenateBuffers_joins (buffers : list ArrayBuffer) :
  concatenateBuffers buffers = Return (concat buffers)
  /\ (forall result, concatenateBuffers buffers = Return result ->
      length result = sum_list (List.map length buffers)).
Proof.
  split; [apply concatenateBuffers_concat|].
  rewrite concatenateBuffers_concat. intros result [= <-].
  induction buffers as [|b bs IH]; simpl; [done|].
  rewrite length_app, IH. done.
Qed.

Lemma encoded_length (s : jsstring) :
  length (Base64.encode_body s ++ Base64.padding s)
  = (4 * ((length s + 2) / 3))%nat.
Proof.
  induction s as [|a|a b|a b c s IHs] using Base64Facts.list_ind3;
    try reflexivity.
  cbn [Base64.encode_body Base64.padding app length]. rewrite IHs.
  replace (S (S (S (length s))) + 2)%nat with ((length s + 2) + 1 * 3)%nat by lia.
  rewrite Nat.div_add by lia. lia.
Qed.

Lemma padding_equals (s : jsstring) : Forall (fun c => c = 61) (Base64.padding s).
Proof.
  destruct (Base64Facts.padding_cases s) as [-> | [-> | ->]]; repeat constructor.
Qed.

(** X2. The text [arrayBufferToBase64] writes for [n] bytes has
    [4 * ceil(n / 3)] characters, each of the base64 alphabet or [=]; the
    function never throws. *)
Theorem arrayBufferToBase64_shape (buffer : ArrayBuffer) :
  exists text,
    arrayBufferToBase64 buffer = Return text
    /\ length text = (4 * ((length buffer + 2) / 3))%nat
    /\ Forall (fun c => alphabet c \/ c = 61) text.
Proof.
  eexists. split; [apply arrayBufferToBase64_returns|]. split.
  - rewrite encoded_length, length_map. done.
  - apply Forall_app. split.
    + eapply Forall_impl;
        [apply Base64Facts.encode_body_alphabet, Base64Facts.binary_bytes|].
      by left.
    + eapply Forall_impl; [apply padding_equals|]. by right.
Qed.

(** X3. Two buffers with the same base64 text are the same buffer. *)
Theorem arrayBufferToBase64_injective (b1 b2 : ArrayBuffer) :
  arrayBufferToBase64 b1 = arrayBufferToBase64 b2 -> b1 = b2.
Proof.
  intros H.
  pose proof (wire_round_trip b1 _ (arrayBufferToBase64_returns b1)) as H1.
  pose proof (wire_round_trip b2 _ (arrayBufferToBase64_returns b2)) as H2.
  rewrite !arrayBufferToBase64_returns in H. injection H as H.
  rewrite H in H1. rewrite H1 in H2. by injection H2.
Qed.

Lemma arrayBufferToBase64_injective_bytes :
  [x68; x69] = [x68; x69].
Proof.
  apply (arrayBufferToBase64_injective [x68; x69] [x68; x69]). reflexivity.
Defined.

Section CryptoExtra.
Context {P : Provider}.

(** X4. Export and import under the same purpose is a round trip: for the
    pair generated for encryption and the pair generated for signing, each
    exported key, imported by the function of its own purpose, is the key
    that was exported. *)
Theorem export_import_same_purpose :
  spki_round_trip P -> pkcs8_round_trip P ->
  forall pair signingPair,
    generateKeyPair (P := P) = Return pair ->
    generateSigningKeyPair (P := P) = Return signingPair ->
    (do text <- exportPublicKey (publicKey pair) in importPublicKey text)
    = Return (publicKey pair)
    /\ (do text <- exportPrivateKey (privateKey pair) in importPrivateKey text)
       = Return (privateKey pair)
    /\ (do text <- exportPublicKey (publicKey signingPair) in
        importSigningPublicKey text) = Return (publicKey signingPair)
    /\ (do text <- exportPrivateKey (privateKey signingPair) in
        importSigningPrivateKey text) = Return (privateKey signingPair).
Proof.
  intros Hspki Hpkcs8 pair signingPair.
  rewrite generateKeyPair_shape, generateSigningKeyPair_shape.
  intros [= <-] [= <-]. cbn [publicKey privateKey].
  unfold importSigningPublicKey, importSigningPrivateKey, importPublicKey,
    importPrivateKey.
  rewrite (export_import_public (oaep_public _) _ RSA_OAEP [encrypt] Hspki eq_refl eq_refl).
  rewrite (export_import_private (oaep_private _) _ RSA_OAEP [decrypt] Hpkcs8 eq_refl eq_refl).
  rewrite (export_import_public (pss_public _) _ RSA_PSS [verify] Hspki eq_refl eq_refl).
  rewrite (export_import_private (pss_private _) _ RSA_PSS [sign] Hpkcs8 eq_refl eq_refl).
  unfold Subtle.importKey. simpl. rewrite !Hspki, !Hpkcs8. done.
Qed.

(** X5. A signature made by [signData] with the private key of a signing
    pair, sent as base64 text and decoded, is verified by [verifySignature]
    with the public key of the pair. *)
Theorem sign_then_verify (data : ArrayBuffer) (pk : rsa_public P) (sk : rsa_private P) :
  pss_correct P -> rsa_matches P pk sk = true ->
  (do signature <- signData data (pss_private sk) in
   do text <- arrayBufferToBase64 signature in
   do received <- base64ToArrayBuffer text in
   verifySignature received data (pss_public pk)) = Return true.
Proof.
  intros Hpss Hm. unfold signData, Subtle.sign_. simpl.
  rewrite arrayBufferToBase64_returns. simpl.
  rewrite (wire_round_trip _ _ (arrayBufferToBase64_returns _)). simpl.
  unfold verifySignature, Subtle.verify_. simpl. by rewrite Hpss.
Qed.

(** X6. A key serves the one operation it was imported for.  The key from
    [importSigningPublicKey] is refused by [encryptAESKey], the key from
    [importPublicKey] by [verifySignature] and by [decryptAESKey], the key
    from [importPrivateKey] by [signData], the key from
    [importSigningPrivateKey] by [decryptAESKey]; and the content key that
    [decryptAESKey] returns decrypts only: [encryptFile] refuses it.  Each
    refusal is the platform's InvalidAccessError. *)
Theorem keys_serve_one_operation (text : jsstring) (key : CryptoKey P)
  (k data other : ArrayBuffer) :
  let refused {A} (c : completion A) := c = Throw (DOMException "InvalidAccessError") in
  (importSigningPublicKey text = Return key ->
   refused (encryptAESKey (content_key P k) key))
  /\ (importPublicKey text = Return key ->
      refused (verifySignature data other key)
      /\ refused (decryptAESKey data key))
  /\ (importPrivateKey text = Return key -> refused (signData data key))
  /\ (importSigningPrivateKey text = Return key ->
      refused (decryptAESKey data key))
  /\ (forall privateKey, decryptAESKey data privateKey = Return key ->
      refused (encryptFile other key k)).
Proof.
  intros refused. unfold refused. repeat split.
  - intros H. apply importSigningPublicKey_shape in H as [pk ->]. reflexivity.
  - apply importPublicKey_shape in H as [pk ->]. reflexivity.
  - apply importPublicKey_shape in H as [pk ->]. reflexivity.
  - intros H. apply importPrivateKey_shape in H as [sk ->]. reflexivity.
  - intros H. apply importSigningPrivateKey_shape in H as [sk ->]. reflexivity.
  - intros privateKey H. unfold decryptAESKey in H.
    destruct (Subtle.decrypt_ RsaOaepParams privateKey data) as [rawKey|]; [|done].
    simpl in H. unfold Subtle.importKey in H. simpl in H.
    destruct (bool_decide _); [|done]. injection H as <-. reflexivity.
Qed.

End CryptoExtra.

Lemma export_import_same_purpose_toy :
  (do text <- exportPublicKey (publicKey (Toy.rsa_pair RSA_OAEP encrypt decrypt x01)) in
   importPublicKey text)
  = Return (publicKey (Toy.rsa_pair RSA_OAEP encrypt decrypt x01)).
Proof.
  apply (export_import_same_purpose (P := Toy.provider)
           ToyFacts.spki_round_trip ToyFacts.pkcs8_round_trip
           (Toy.rsa_pair RSA_OAEP encrypt decrypt x01)
           (Toy.rsa_pair RSA_PSS verify sign x02) eq_refl eq_refl).
Defined.

Lemma sign_then_verify_toy :
  (do signature <- signData [x01; x02] (pss_private (P := Toy.provider) x0b) in
   do text <- arrayBufferToBase64 signature in
   do received <- base64ToArrayBuffer text in
   verifySignature received [x01; x02] (pss_public (P := Toy.provider) x0b))
  = Return true.
Proof.
  apply (sign_then_verify (P := Toy.provider) [x01; x02] x0b x0b
           ToyMoreFacts.pss_correct eq_refl).
Defined.

Lemma keys_serve_one_operation_toy :
  encryptAESKey (content_key Toy.provider (repeat x07 32))
    (pss_public (P := Toy.provider) x0b)
  = Throw (DOMException "InvalidAccessError").
Proof.
  apply (proj1 (keys_serve_one_operation (P := Toy.provider) (js "MAs=")
                  (pss_public (P := Toy.provider) x0b) (repeat x07 32) [] [])).
  reflexivity.
Defined.

(** ** [ReceiveFiles.tsx]: how [handleDownload] ends *)

Ltac step_receive H :=
  cbv beta iota zeta delta
    [ReceiveFiles.download ReceiveFiles.call ReceiveFiles.record
     ReceiveFiles.setState ReceiveFiles.setError ReceiveFiles.setProgress
     ReceiveFiles.setSelectedFile ReceiveFiles.state ReceiveFiles.error
     ReceiveFiles.progress ReceiveFiles.selectedFile ReceiveFiles.log
     then_ try_ settle pure update] in H.

Ltac step_send H :=
  cbv beta iota zeta delta
    [SendFile.upload SendFile.call SendFile.record
     SendFile.setState SendFile.setError SendFile.setProgress
     SendFile.state SendFile.error SendFile.progress SendFile.selectedFile
     SendFile.receiverData SendFile.log
     then_ try_ settle pure update] in H.

Section ReceiveExtra.
Context {P : Provider}.
Context (JSON_parse : JSON_parser).
Context (db : completion ObjectStore).
Context (downloadFile : jsstring -> completion DownloadedFile.t).

(** The handler is its [try] block between the three updates before it and
    the three of the [catch]. *)
Lemma handleDownload_unfold (file : InboxFile.t) (w0 : ReceiveFiles.Component (P := P)) :
  ReceiveFiles.handleDownload JSON_parse db downloadFile file w0
  = match ReceiveFiles.download JSON_parse db downloadFile file
            {| ReceiveFiles.state := ReceiveFiles.st_downloading;
               ReceiveFiles.error := None;
               ReceiveFiles.progress := ReceiveFiles.progress w0;
               ReceiveFiles.selectedFile := Some file;
               ReceiveFiles.log := ReceiveFiles.log w0 |} with
    | (Return u, w') => (Return u, w')
    | (Throw e, w') =>
        (Return tt,
         {| ReceiveFiles.state := ReceiveFiles.st_error;
            ReceiveFiles.error := Some e;
            ReceiveFiles.progress := "";
            ReceiveFiles.selectedFile := ReceiveFiles.selectedFile w';
            ReceiveFiles.log := ReceiveFiles.log w' |})
    end.
Proof.
  unfold ReceiveFiles.handleDownload.
  cbv beta iota zeta delta
    [ReceiveFiles.setState ReceiveFiles.setError ReceiveFiles.setProgress
     ReceiveFiles.setSelectedFile ReceiveFiles.state ReceiveFiles.error
     ReceiveFiles.progress ReceiveFiles.selectedFile ReceiveFiles.log
     then_ try_ settle pure update].
  reflexivity.
Qed.

Lemma download_ends (file : InboxFile.t) (w w' : ReceiveFiles.Component (P := P))
  (c : completion unit) :
  ReceiveFiles.download JSON_parse db downloadFile file w = (c, w') ->
  ReceiveFiles.selectedFile w' = ReceiveFiles.selectedFile w
  /\ ReceiveFiles.error w' = ReceiveFiles.error w
  /\ exists new,
      ReceiveFiles.log w' = ReceiveFiles.log w ++ new
      /\ match c with
         | Return _ =>
             ReceiveFiles.state w' = ReceiveFiles.st_success
             /\ ReceiveFiles.progress w' = ""
             /\ exists pre name content,
                 new = pre ++ [ReceiveFiles.save_file name content]
                 /\ forall ev, ev ∈ pre -> ReceiveFiles.is_save ev = false
         | Throw _ =>
             ReceiveFiles.state w' = ReceiveFiles.state w
             /\ forall ev, ev ∈ new -> ReceiveFiles.is_save ev = false
         end.
Proof.
  intros H. step_receive H. follow H.
  all: injection H as <- <-;
    cbn [ReceiveFiles.log ReceiveFiles.state ReceiveFiles.error
         ReceiveFiles.progress ReceiveFiles.selectedFile].
  all: split; [done|]; split; [done|].
  all: rewrite <- ?app_assoc.
  all: first [ eexists; split; [reflexivity|]
             | exists []; split; [by rewrite app_nil_r|] ].
  all: cbn [app].
  all: try (split; [done|]; intros ev Hev; in_cases Hev; done).
  split; [done|]. split; [done|].
  eexists [_; _; _; _; _; _], _, _. split; [reflexivity|].
  intros ev Hev; in_cases Hev; done.
Qed.

(** What is saved: the output of [decryptFile] on the downloaded ciphertext
    and tag, under the key unwrapped with the user's own private key. *)
Lemma download_saves (file : InboxFile.t) (w w' : ReceiveFiles.Component (P := P))
  (c : completion unit) :
  ReceiveFiles.download JSON_parse db downloadFile file w = (c, w') ->
  exists new,
    ReceiveFiles.log w' = ReceiveFiles.log w ++ new
    /\ forall name content,
        ReceiveFiles.save_file name content ∈ new ->
        exists keys downloadedFile nonce authTag encryptedAESKey
          (privateKey aesKey : CryptoKey P),
          getKeys db = Return (Some keys)
          /\ downloadFile (InboxFile.fileId file) = Return downloadedFile
          /\ base64ToArrayBuffer (DownloadedFile.nonce downloadedFile) = Return nonce
          /\ base64ToArrayBuffer (DownloadedFile.authTag downloadedFile)
             = Return authTag
          /\ base64ToArrayBuffer (DownloadedFile.encryptedAESKey downloadedFile)
             = Return encryptedAESKey
          /\ importPrivateKey (encryptionPrivateKey keys) = Return privateKey
          /\ decryptAESKey encryptedAESKey privateKey = Return aesKey
          /\ decryptFile (DownloadedFile.encryptedFile downloadedFile ++ authTag)
               aesKey nonce = Return content
          /\ name = match DownloadedFile.fileName downloadedFile with
                    | [] => InboxFile.fileName file
                    | n => n
                    end.
Proof.
  intros H. step_receive H. follow H.
  all: injection H as <- <-; cbn [ReceiveFiles.log].
  all: rewrite <- ?app_assoc.
  all: first [ eexists; split; [reflexivity|]
             | exists []; split; [by rewrite app_nil_r|] ].
  all: cbn [app].
  all: intros name content Hin; in_cases Hin.
  match goal with
  | Hj : ReceiveFiles.ciphertextWithTag _ _ = Return _ |- _ =>
      rewrite ciphertextWithTag_app in Hj; injection Hj as <-
  end.
  eexists _, _, _, _, _, _, _. repeat (split; [eassumption|]). done.
Qed.

End ReceiveExtra.

(** X7. [handleDownload] never throws and always comes to rest: the
    progress text is empty and the selected file is the one asked for;
    either the state is [success], no error is set, and the last thing the
    handler did was to save one file (the only save), or the state is
    [error], the exception caught is the error, and nothing was saved. *)
Theorem handleDownload_ends (P : Provider) (JSON_parse : JSON_parser)
  (db : completion ObjectStore)
  (downloadFile : jsstring -> completion DownloadedFile.t)
  (file : InboxFile.t) (w0 : ReceiveFiles.Component (P := P)) :
  let r := ReceiveFiles.handleDownload JSON_parse db downloadFile file w0 in
  fst r = Return tt
  /\ ReceiveFiles.progress (snd r) = ""
  /\ ReceiveFiles.selectedFile (snd r) = Some file
  /\ exists new,
      ReceiveFiles.log (snd r) = ReceiveFiles.log w0 ++ new
      /\ ((ReceiveFiles.state (snd r) = ReceiveFiles.st_success
           /\ ReceiveFiles.error (snd r) = None
           /\ exists pre name content,
               new = pre ++ [ReceiveFiles.save_file name content]
               /\ forall ev, ev ∈ pre -> ReceiveFiles.is_save ev = false)
          \/ (ReceiveFiles.state (snd r) = ReceiveFiles.st_error
              /\ (exists e, ReceiveFiles.error (snd r) = Some e)
              /\ forall ev, ev ∈ new -> ReceiveFiles.is_save ev = false)).
Proof.
  intros r. subst r. rewrite handleDownload_unfold.
  match goal with
  | |- context [ReceiveFiles.download ?a ?b ?c ?d ?w] =>
      destruct (ReceiveFiles.download a b c d w) as [[[]|e] w'] eqn:Hd
  end.
  all: apply download_ends in Hd as (Hsel & Herr & new & Hlog & Hend).
  all: cbn [fst snd ReceiveFiles.log ReceiveFiles.state ReceiveFiles.error
            ReceiveFiles.progress ReceiveFiles.selectedFile] in *.
  - destruct Hend as (Hst & Hpr & Hsave).
    split; [done|]. split; [done|]. split; [done|].
    exists new. split; [done|]. left. done.
  - destruct Hend as (Hst & Hsave).
    split; [done|]. split; [done|]. split; [done|].
    exists new. split; [done|]. right. split; [done|]. split; [by eexists|done].
Qed.

(** X8. Whatever [handleDownload] saves is what [decryptFile] returned for
    the downloaded ciphertext followed by the decoded tag, with the decoded
    nonce and the key that [decryptAESKey] unwrapped with the private key
    imported from the user's own [encryptionPrivateKey]; the name is the
    downloaded file name, or the inbox entry's when that one is empty. *)
Theorem handleDownload_saves_decryption (P : Provider) (JSON_parse : JSON_parser)
  (db : completion ObjectStore)
  (downloadFile : jsstring -> completion DownloadedFile.t)
  (file : InboxFile.t) (w0 : ReceiveFiles.Component (P := P)) :
  let w := snd (ReceiveFiles.handleDownload JSON_parse db downloadFile file w0) in
  exists new,
    ReceiveFiles.log w = ReceiveFiles.log w0 ++ new
    /\ forall name content,
        ReceiveFiles.save_file name content ∈ new ->
        exists keys downloadedFile nonce authTag encryptedAESKey
          (privateKey aesKey : CryptoKey P),
          getKeys db = Return (Some keys)
          /\ downloadFile (InboxFile.fileId file) = Return downloadedFile
          /\ base64ToArrayBuffer (DownloadedFile.nonce downloadedFile) = Return nonce
          /\ base64ToArrayBuffer (DownloadedFile.authTag downloadedFile)
             = Return authTag
          /\ base64ToArrayBuffer (DownloadedFile.encryptedAESKey downloadedFile)
             = Return encryptedAESKey
          /\ importPrivateKey (encryptionPrivateKey keys) = Return privateKey
          /\ decryptAESKey encryptedAESKey privateKey = Return aesKey
          /\ decryptFile (DownloadedFile.encryptedFile downloadedFile ++ authTag)
               aesKey nonce = Return content
          /\ name = match DownloadedFile.fileName downloadedFile with
                    | [] => InboxFile.fileName file
                    | n => n
                    end.
Proof.
  intros w. subst w.
  destruct (handleDownload_outcome JSON_parse db downloadFile file w0)
    as (w1 & c & w' & Hlog1 & Hd & Hlog & _).
  apply download_saves in Hd as (new & Hnew & Hsave).
  exists new. split; [|done]. by rewrite Hlog, Hnew, Hlog1.
Qed.

(** ** [SendFile.tsx]: how [handleSend] ends, and what it uploads *)

Section SendExtra.
Context {P : Provider}.
Context (JSON_parse : JSON_parser).
Context (db : completion ObjectStore).
Context (sendFile : SendFilePayload.t -> completion (jsstring * jsstring)).

Lemma handleSend_unfold (selectedFile : SendFile.File)
  (receiverData : SendFile.ReceiverData) (w0 : SendFile.Component (P := P)) :
  SendFile.selectedFile w0 = Some selectedFile ->
  SendFile.receiverData w0 = Some receiverData ->
  SendFile.handleSend JSON_parse db sendFile w0
  = match SendFile.upload JSON_parse db sendFile selectedFile receiverData
            {| SendFile.state := SendFile.st_sending;
               SendFile.receiverData := Some receiverData;
               SendFile.selectedFile := Some selectedFile;
               SendFile.error := None;
               SendFile.progress := SendFile.progress w0;
               SendFile.log := SendFile.log w0 |} with
    | (Return u, w') => (Return u, w')
    | (Throw e, w') =>
        (Return tt,
         {| SendFile.state := SendFile.st_error;
            SendFile.receiverData := SendFile.receiverData w';
            SendFile.selectedFile := SendFile.selectedFile w';
            SendFile.error := Some e;
            SendFile.progress := "";
            SendFile.log := SendFile.log w' |})
    end.
Proof.
  intros Hf Hr. destruct w0 as [st rd sf err pr lg].
  cbn [SendFile.selectedFile SendFile.receiverData] in Hf, Hr. subst rd sf.
  reflexivity.
Qed.

Lemma upload_ends (selectedFile : SendFile.File)
  (receiverData : SendFile.ReceiverData) (w w' : SendFile.Component (P := P))
  (c : completion unit) :
  SendFile.upload JSON_parse db sendFile selectedFile receiverData w = (c, w') ->
  SendFile.selectedFile w' = SendFile.selectedFile w
  /\ SendFile.receiverData w' = SendFile.receiverData w
  /\ SendFile.error w' = SendFile.error w
  /\ exists new,
      SendFile.log w' = SendFile.log w ++ new
      /\ match c with
         | Return _ =>
             SendFile.state w' = SendFile.st_success
             /\ SendFile.progress w' = ""
             /\ exists pre payload,
                 new = pre ++ [SendFile.call_sendFile payload]
                 /\ returns (sendFile payload)
                 /\ forall p, SendFile.call_sendFile p ∉ pre
         | Throw e =>
             SendFile.state w' = SendFile.state w
             /\ forall p, SendFile.call_sendFile p ∈ new -> sendFile p = Throw e
         end.
Proof.
  intros H. step_send H. follow H.
  all: injection H as <- <-;
    cbn [SendFile.log SendFile.state SendFile.error SendFile.progress
         SendFile.selectedFile SendFile.receiverData].
  all: split; [done|]; split; [done|]; split; [done|].
  all: rewrite <- ?app_assoc.
  all: first [ eexists; split; [reflexivity|]
             | exists []; split; [by rewrite app_nil_r|] ].
  all: cbn [app].
  all: try (split; [done|]; intros p Hp; in_cases Hp; done).
  split; [done|]. split; [done|].
  eexists [_; _; _; _; _; _; _; _], _. split; [reflexivity|].
  split; [by eexists|].
  intros p Hp; in_cases Hp.
Qed.

(** The parts of the envelope that come out of the encryption. *)
Lemma upload_wraps (selectedFile : SendFile.File)
  (receiverData : SendFile.ReceiverData) (w w' : SendFile.Component (P := P))
  (c : completion unit) :
  SendFile.upload JSON_parse db sendFile selectedFile receiverData w = (c, w') ->
  exists new,
    SendFile.log w' = SendFile.log w ++ new
    /\ forall payload,
        SendFile.call_sendFile payload ∈ new ->
        exists (aesKey receiverPublicKey : CryptoKey P) encrypted v encryptedAESKey,
          generateAESKey = Return aesKey
          /\ encryptFile (SendFile.contents selectedFile) aesKey
               (generateNonce (P := P)) = Return encrypted
          /\ SendFilePayload.file payload = fst (SendFile.split_ciphertext encrypted)
          /\ arrayBufferToBase64 (snd (SendFile.split_ciphertext encrypted))
             = Return (SendFilePayload.authTag payload)
          /\ arrayBufferToBase64 (generateNonce (P := P))
             = Return (SendFilePayload.nonce payload)
          /\ SendFile.receiverEncryptionKey JSON_parse
               (SendFile.publicKey receiverData) = Return v
          /\ importPublicKey (ToString v) = Return receiverPublicKey
          /\ encryptAESKey aesKey receiverPublicKey = Return encryptedAESKey
          /\ arrayBufferToBase64 encryptedAESKey
             = Return (SendFilePayload.encryptedAESKey payload).
Proof.
  intros H. step_send H. follow H.
  all: injection H as <- <-; cbn [SendFile.log].
  all: rewrite <- ?app_assoc.
  all: first [ eexists; split; [reflexivity|]
             | exists []; split; [by rewrite app_nil_r|] ].
  all: cbn [app].
  all: intros payload Hin; in_cases Hin.
  all: cbn [SendFilePayload.nonce SendFilePayload.authTag SendFilePayload.file
            SendFilePayload.encryptedAESKey].
  all: match goal with
       | Hs : SendFile.split_ciphertext _ = (_, _) |- _ =>
           eexists _, _, _, _, _;
           split; [reflexivity|]; split; [eassumption|]; rewrite Hs; cbn [fst snd]
       end.
  all: repeat (split; [eassumption || reflexivity|]); done.
Qed.

End SendExtra.

(** X9. [handleSend] never throws.  Without a selected file or without a
    receiver it changes nothing.  With both it comes to rest with an empty
    progress text: either in [success], with no error set, after exactly one
    call of [sendFile], its last action, which returned; or in [error], the
    exception caught being the error, and then any call of [sendFile] it
    made threw that exception. *)
Theorem handleSend_ends (P : Provider) (JSON_parse : JSON_parser)
  (db : completion ObjectStore)
  (sendFile : SendFilePayload.t -> completion (jsstring * jsstring))
  (w0 : SendFile.Component (P := P)) :
  let r := SendFile.handleSend JSON_parse db sendFile w0 in
  fst r = Return tt
  /\ (SendFile.selectedFile w0 = None \/ SendFile.receiverData w0 = None ->
      snd r = w0)
  /\ (forall selectedFile receiverData,
        SendFile.selectedFile w0 = Some selectedFile ->
        SendFile.receiverData w0 = Some receiverData ->
        SendFile.progress (snd r) = ""
        /\ SendFile.selectedFile (snd r) = Some selectedFile
        /\ SendFile.receiverData (snd r) = Some receiverData
        /\ exists new,
            SendFile.log (snd r) = SendFile.log w0 ++ new
            /\ ((SendFile.state (snd r) = SendFile.st_success
                 /\ SendFile.error (snd r) = None
                 /\ exists pre payload,
                     new = pre ++ [SendFile.call_sendFile payload]
                     /\ returns (sendFile payload)
                     /\ forall p, SendFile.call_sendFile p ∉ pre)
                \/ (SendFile.state (snd r) = SendFile.st_error
                    /\ exists e,
                        SendFile.error (snd r) = Some e
                        /\ forall p, SendFile.call_sendFile p ∈ new ->
                                     sendFile p = Throw e))).
Proof.
  intros r. subst r.
  destruct (SendFile.selectedFile w0) as [f|] eqn:Hf;
    [destruct (SendFile.receiverData w0) as [rd|] eqn:Hr|].
  2,3: unfold SendFile.handleSend; rewrite Hf, ?Hr;
    (split; [done|]); (split; [done|]); intros ? ? [=]; done.
  rewrite (handleSend_unfold _ _ _ f rd w0 Hf Hr).
  match goal with
  | |- context [SendFile.upload ?a ?b ?c ?d ?e ?w] =>
      destruct (SendFile.upload a b c d e w) as [[[]|e'] w'] eqn:Hd
  end.
  all: apply upload_ends in Hd as (Hsel & Hrd & Herr & new & Hlog & Hend).
  all: cbn [fst snd SendFile.log SendFile.state SendFile.error
            SendFile.progress SendFile.selectedFile SendFile.receiverData] in *.
  all: split; [done|]; split; [by intros [[=]|[=]]|].
  all: intros ? ? [= <-] [= <-].
  - destruct Hend as (Hst & Hpr & Hsent).
    split; [done|]. split; [done|]. split; [done|].
    exists new. split; [done|]. left. done.
  - destruct Hend as (Hst & Hsent).
    split; [done|]. split; [done|]. split; [done|].
    exists new. split; [done|]. right. split; [done|]. by exists e'.
Qed.

(** X10. What an uploaded envelope holds of the encryption.  Its [file]
    followed by its decoded [authTag] is the output of [encryptFile] on the
    selected file's bytes under the key from [generateAESKey] and the nonce
    from [generateNonce], which is its decoded [nonce]; its decoded
    [encryptedAESKey] is the output of [encryptAESKey] for that key and
    the key imported from the receiver's directory entry.  With a 16-byte
    tag appended by AES-GCM, [file] is as long as the selected file and
    [authTag] decodes to 16 bytes. *)
Theorem envelope_holds_the_encryption (P : Provider) (JSON_parse : JSON_parser)
  (db : completion ObjectStore)
  (sendFile : SendFilePayload.t -> completion (jsstring * jsstring))
  (selectedFile : SendFile.File) (receiverData : SendFile.ReceiverData)
  (w0 : SendFile.Component (P := P)) :
  SendFile.selectedFile w0 = Some selectedFile ->
  SendFile.receiverData w0 = Some receiverData ->
  let w := snd (SendFile.handleSend JSON_parse db sendFile w0) in
  exists new,
    SendFile.log w = SendFile.log w0 ++ new
    /\ forall payload,
        SendFile.call_sendFile payload ∈ new ->
        exists (aesKey receiverPublicKey : CryptoKey P) encrypted authTag v wrapped,
          generateAESKey = Return aesKey
          /\ encryptFile (SendFile.contents selectedFile) aesKey
               (generateNonce (P := P)) = Return encrypted
          /\ SendFilePayload.file payload ++ authTag = encrypted
          /\ base64ToArrayBuffer (SendFilePayload.authTag payload) = Return authTag
          /\ base64ToArrayBuffer (SendFilePayload.nonce payload)
             = Return (generateNonce (P := P))
          /\ SendFile.receiverEncryptionKey JSON_parse
               (SendFile.publicKey receiverData) = Return v
          /\ importPublicKey (ToString v) = Return receiverPublicKey
          /\ encryptAESKey aesKey receiverPublicKey = Return wrapped
          /\ base64ToArrayBuffer (SendFilePayload.encryptedAESKey payload)
             = Return wrapped
          /\ (gcm_tag_appended P ->
              length (SendFilePayload.file payload)
              = length (SendFile.contents selectedFile)
              /\ length authTag = 16%nat).
Proof.
  intros Hf Hr w. subst w.
  destruct (handleSend_outcome JSON_parse db sendFile selectedFile receiverData w0
              Hf Hr) as (w1 & c & w' & Hlog1 & Hu & Hlog & _).
  apply upload_wraps in Hu as (new & Hnew & Hwraps).
  exists new. split; [by rewrite Hlog, Hnew, Hlog1|].
  intros payload Hin.
  destruct (Hwraps payload Hin)
    as (aesKey & receiverPublicKey & encrypted & v & wrapped
        & Hgen & Henc & Hfile & Htag & Hnonce & Hv & Himp & Hwrap & Hw64).
  exists aesKey, receiverPublicKey, encrypted,
    (snd (SendFile.split_ciphertext encrypted)), v, wrapped.
  split; [done|]. split; [done|].
  split; [rewrite Hfile; apply split_ciphertext_app|].
  split; [by apply wire_round_trip|].
  split; [by apply wire_round_trip|].
  split; [done|]. split; [done|]. split; [done|].
  split; [by apply wire_round_trip|].
  intros Htagged. rewrite generateAESKey_shape in Hgen. injection Hgen as <-.
  injection Henc as <-.
  destruct (split_ciphertext_lengths
              (gcm_encrypt P (aes256_keygen P) (generateNonce (P := P))
                 (SendFile.contents selectedFile))) as [H1 H2].
  - rewrite Htagged. lia.
  - rewrite Hfile, H1, Htagged. split; [lia|done].
Qed.

Lemma envelope_holds_the_encryption_alice :
  exists new,
    SendFile.log Scenario.alice_sent = [] ++ new
    /\ SendFile.call_sendFile Scenario.envelope ∈ new
    /\ length (SendFilePayload.file Scenario.envelope)
       = length (SendFile.contents Toy.hello).
Proof.
  destruct (envelope_holds_the_encryption Toy.provider Toy.parse_bundle
              (Return (storeKeys Scenario.alice ∅)) Toy.accept_upload
              Toy.hello Scenario.bob_entry Scenario.alice_ready
              eq_refl eq_refl) as (new & Hlog & _).
  exists new. split; [exact Hlog|].
  simpl in Hlog. unfold Scenario.alice_sent. rewrite <- Hlog.
  vm_compute. split; [|reflexivity]. do 8 right. left.
Defined.

(** ** The handlers without local keys, and with a bundle that lacks the key *)

Ltac run_receive :=
  cbv beta iota zeta delta
    [ReceiveFiles.download ReceiveFiles.call ReceiveFiles.record
     ReceiveFiles.setState ReceiveFiles.setError ReceiveFiles.setProgress
     ReceiveFiles.setSelectedFile ReceiveFiles.state ReceiveFiles.error
     ReceiveFiles.progress ReceiveFiles.selectedFile ReceiveFiles.log
     then_ try_ settle pure update].

Ltac run_send :=
  cbv beta iota zeta delta
    [SendFile.upload SendFile.call SendFile.record
     SendFile.setState SendFile.setError SendFile.setProgress
     SendFile.state SendFile.error SendFile.progress SendFile.selectedFile
     SendFile.receiverData SendFile.log
     then_ try_ settle pure update].

(** One step forward: the call at the head is replaced by its outcome. *)
Ltac forward E := rewrite E; cbv beta iota zeta.

Lemma stop_without_local_keys (P : Provider) (JSON_parse : JSON_parser)
  (db : completion ObjectStore) :
  (forall keys, getKeys db <> Return (Some keys)) ->
  let reason := match getKeys db with
                | Throw e => e
                | Return _ => Error "Local keys not found"
                end in
  (forall downloadFile file (w0 : ReceiveFiles.Component (P := P)),
     ReceiveFiles.handleDownload JSON_parse db downloadFile file w0
     = (Return tt,
        {| ReceiveFiles.state := ReceiveFiles.st_error;
           ReceiveFiles.error := Some reason;
           ReceiveFiles.progress := "";
           ReceiveFiles.selectedFile := Some file;
           ReceiveFiles.log := ReceiveFiles.log w0 |}))
  /\ (forall sendFile selectedFile receiverData (w0 : SendFile.Component (P := P)),
        SendFile.selectedFile w0 = Some selectedFile ->
        SendFile.receiverData w0 = Some receiverData ->
        SendFile.handleSend JSON_parse db sendFile w0
        = (Return tt,
           {| SendFile.state := SendFile.st_error;
              SendFile.receiverData := Some receiverData;
              SendFile.selectedFile := Some selectedFile;
              SendFile.error := Some reason;
              SendFile.progress := "";
              SendFile.log := SendFile.log w0 |})).
Proof.
  intros Hnone reason. subst reason. split.
  - intros downloadFile file w0. rewrite handleDownload_unfold. run_receive.
    destruct (getKeys db) as [[keys|]|e] eqn:E; [by destruct (Hnone keys)|reflexivity..].
  - intros sendFile selectedFile receiverData w0 Hf Hr.
    rewrite (handleSend_unfold _ _ _ _ _ _ Hf Hr). run_send.
    destruct (getKeys db) as [[keys|]|e] eqn:E; [by destruct (Hnone keys)|reflexivity..].
Qed.

(** X11. Without usable local keys neither handler does anything but
    report it: when [getKeys] resolves to null, or rejects, [handleDownload]
    and [handleSend] end in the [error] state with 'Local keys not found',
    or the rejection, as the error, and the log of calls is as it was: no
    download, no upload and no cryptographic operation took place. *)
Theorem handlers_stop_without_local_keys (P : Provider) (JSON_parse : JSON_parser)
  (db : completion ObjectStore) :
  (forall keys, getKeys db <> Return (Some keys)) ->
  let reason := match getKeys db with
                | Throw e => e
                | Return _ => Error "Local keys not found"
                end in
  (forall downloadFile file (w0 : ReceiveFiles.Component (P := P)),
     ReceiveFiles.handleDownload JSON_parse db downloadFile file w0
     = (Return tt,
        {| ReceiveFiles.state := ReceiveFiles.st_error;
           ReceiveFiles.error := Some reason;
           ReceiveFiles.progress := "";
           ReceiveFiles.selectedFile := Some file;
           ReceiveFiles.log := ReceiveFiles.log w0 |}))
  /\ (forall sendFile selectedFile receiverData (w0 : SendFile.Component (P := P)),
        SendFile.selectedFile w0 = Some selectedFile ->
        SendFile.receiverData w0 = Some receiverData ->
        SendFile.handleSend JSON_parse db sendFile w0
        = (Return tt,
           {| SendFile.state := SendFile.st_error;
              SendFile.receiverData := Some receiverData;
              SendFile.selectedFile := Some selectedFile;
              SendFile.error := Some reason;
              SendFile.progress := "";
              SendFile.log := SendFile.log w0 |})).
Proof. apply stop_without_local_keys. Qed.

Lemma handlers_stop_without_local_keys_empty_store :
  ReceiveFiles.handleDownload (P := Toy.provider) Toy.parse_bundle (Return ∅)
    (fun _ => Return Scenario.received) Toy.inbox_entry ReceiveFiles.initial
  = (Return tt,
     {| ReceiveFiles.state := ReceiveFiles.st_error;
        ReceiveFiles.error := Some (Error "Local keys not found");
        ReceiveFiles.progress := "";
        ReceiveFiles.selectedFile := Some Toy.inbox_entry;
        ReceiveFiles.log := [] |}).
Proof.
  assert (Hnone : forall keys, getKeys (Return ∅) <> Return (Some keys)).
  { intros keys H. vm_compute in H. discriminate H. }
  apply (proj1 (handlers_stop_without_local_keys Toy.provider Toy.parse_bundle
                  (Return ∅) Hnone)).
Defined.

Section Undefined.
Context {P : Provider}.
Context (JSON_parse : JSON_parser).
Context (db : completion ObjectStore).

(** [atob(undefined)] reads the nine characters of the word. *)
Lemma import_undefined :
  importSigningPublicKey (P := P) (ToString JUndefined)
  = Throw (DOMException "InvalidCharacterError")
  /\ importPublicKey (P := P) (ToString JUndefined)
     = Throw (DOMException "InvalidCharacterError").
Proof. split; reflexivity. Qed.

Lemma parse_or_fallback_undefined (text field : jsstring) (parsed : JsValue) :
  JSON_parse text = Return parsed ->
  get_property parsed field = Return JUndefined ->
  parse_or_fallback JSON_parse text field = Return JUndefined.
Proof.
  intros Hp Hg. unfold parse_or_fallback, try_catch. rewrite Hp. simpl.
  by rewrite Hg.
Qed.

End Undefined.

(** X12. The fallback to the raw string covers a bundle that does not
    parse, not one that parses without the key.  When [senderPublicKey]
    parses as JSON to a value that has no [signing] property (a number, or
    an object without it), [handleDownload] imports the string 'undefined',
    which is not base64: it ends in the [error] state with
    InvalidCharacterError after that one call, with nothing verified,
    decrypted or saved. *)
Theorem handleDownload_bundle_without_signing (P : Provider)
  (JSON_parse : JSON_parser) (db : completion ObjectStore)
  (downloadFile : jsstring -> completion DownloadedFile.t)
  (file : InboxFile.t) (w0 : ReceiveFiles.Component (P := P))
  (keys : StoredKeys) (downloadedFile : DownloadedFile.t) (parsed : JsValue) :
  getKeys db = Return (Some keys) ->
  downloadFile (InboxFile.fileId file) = Return downloadedFile ->
  JSON_parse (DownloadedFile.senderPublicKey downloadedFile) = Return parsed ->
  get_property parsed (js "signing") = Return JUndefined ->
  ReceiveFiles.handleDownload JSON_parse db downloadFile file w0
  = (Return tt,
     {| ReceiveFiles.state := ReceiveFiles.st_error;
        ReceiveFiles.error := Some (DOMException "InvalidCharacterError");
        ReceiveFiles.progress := "";
        ReceiveFiles.selectedFile := Some file;
        ReceiveFiles.log :=
          ReceiveFiles.log w0
          ++ [ReceiveFiles.call_importSigningPublicKey (js "undefined")] |}).
Proof.
  intros Hkeys Hdl Hparse Hget. rewrite handleDownload_unfold. run_receive.
  forward Hkeys. forward Hdl.
  unfold ReceiveFiles.senderSigningKey.
  forward (parse_or_fallback_undefined JSON_parse _ _ _ Hparse Hget).
  forward (proj1 (import_undefined (P := P))). reflexivity.
Qed.

(** X13. The same on the sending side: when the receiver's directory entry
    parses as JSON to a value without an [encryption] property,
    [handleSend] encrypts the file, then imports the string 'undefined' and
    stops there with InvalidCharacterError: the content key is not wrapped,
    nothing is signed and nothing is uploaded. *)
Theorem handleSend_bundle_without_encryption (P : Provider)
  (JSON_parse : JSON_parser) (db : completion ObjectStore)
  (sendFile : SendFilePayload.t -> completion (jsstring * jsstring))
  (w0 : SendFile.Component (P := P))
  (selectedFile : SendFile.File) (receiverData : SendFile.ReceiverData)
  (keys : StoredKeys) (parsed : JsValue) :
  SendFile.selectedFile w0 = Some selectedFile ->
  SendFile.receiverData w0 = Some receiverData ->
  getKeys db = Return (Some keys) ->
  JSON_parse (SendFile.publicKey receiverData) = Return parsed ->
  get_property parsed (js "encryption") = Return JUndefined ->
  SendFile.handleSend JSON_parse db sendFile w0
  = (Return tt,
     {| SendFile.state := SendFile.st_error;
        SendFile.receiverData := Some receiverData;
        SendFile.selectedFile := Some selectedFile;
        SendFile.error := Some (DOMException "InvalidCharacterError");
        SendFile.progress := "";
        SendFile.log :=
          SendFile.log w0
          ++ [SendFile.call_generateAESKey; SendFile.call_generateNonce;
              SendFile.call_encryptFile (SendFile.contents selectedFile)
                (content_key P (aes256_keygen P)) (generateNonce (P := P));
              SendFile.call_importPublicKey (js "undefined")] |}).
Proof.
  intros Hf Hr Hkeys Hparse Hget.
  rewrite (handleSend_unfold _ _ _ _ _ _ Hf Hr). run_send.
  forward Hkeys. forward (generateAESKey_shape (P := P)).
  change (encryptFile (SendFile.contents selectedFile)
            (content_key P (aes256_keygen P)) (generateNonce (P := P)))
    with (Return (A := ArrayBuffer)
            (gcm_encrypt P (aes256_keygen P) (generateNonce (P := P))
               (SendFile.contents selectedFile))).
  cbv beta iota zeta.
  destruct (SendFile.split_ciphertext _) as [ciphertext authTag].
  unfold SendFile.receiverEncryptionKey.
  forward (parse_or_fallback_undefined JSON_parse _ _ _ Hparse Hget).
  forward (proj2 (import_undefined (P := P))).
  rewrite <- !app_assoc. reflexivity.
Qed.

(** ** [keyStorage.ts] and the token of [api.ts] *)

Lemma storeKeys_lookups (keys : StoredKeys) (store : ObjectStore) :
  storeKeys keys store !! "encryptionPublicKey" = Some (encryptionPublicKey keys)
  /\ storeKeys keys store !! "encryptionPrivateKey" = Some (encryptionPrivateKey keys)
  /\ storeKeys keys store !! "signingPublicKey" = Some (signingPublicKey keys)
  /\ storeKeys keys store !! "signingPrivateKey" = Some (signingPrivateKey keys).
Proof.
  unfold storeKeys. repeat split.
  - rewrite !lookup_insert_ne by done. by rewrite lookup_insert_eq.
  - rewrite !lookup_insert_ne by done. by rewrite lookup_insert_eq.
  - rewrite !lookup_insert_ne by done. by rewrite lookup_insert_eq.
  - by rewrite lookup_insert_eq.
Qed.

Lemma getKeys_oncomplete_storeKeys (keys : StoredKeys) (store : ObjectStore) :
  getKeys_oncomplete (storeKeys keys store)
  = if truthy (Some (encryptionPublicKey keys))
       && truthy (Some (encryptionPrivateKey keys))
       && truthy (Some (signingPublicKey keys))
       && truthy (Some (signingPrivateKey keys))
    then Some keys else None.
Proof.
  unfold getKeys_oncomplete. cbv zeta.
  destruct (storeKeys_lookups keys store) as (-> & -> & -> & ->).
  cbn [default]. by destruct keys.
Qed.

Lemma storeKeys_overwrites (keys earlier : StoredKeys) (store : ObjectStore) :
  storeKeys keys (storeKeys earlier store) = storeKeys keys store.
Proof.
  apply map_eq. intros k. unfold storeKeys.
  rewrite !lookup_insert. repeat case_decide; done.
Qed.

(** X14. What [storeKeys] writes, [getKeys] reads back, whatever the store
    held before: the four keys when none of them is the empty string, and
    null when one is.  A second [storeKeys] replaces the first. *)
Theorem storeKeys_then_getKeys (keys : StoredKeys) (store : ObjectStore) :
  (encryptionPublicKey keys <> [] /\ encryptionPrivateKey keys <> []
   /\ signingPublicKey keys <> [] /\ signingPrivateKey keys <> [] ->
   getKeys (Return (storeKeys keys store)) = Return (Some keys)
   /\ hasKeys (Return (storeKeys keys store)) = Return true)
  /\ (encryptionPublicKey keys = [] \/ encryptionPrivateKey keys = []
      \/ signingPublicKey keys = [] \/ signingPrivateKey keys = [] ->
      getKeys (Return (storeKeys keys store)) = Return None
      /\ hasKeys (Return (storeKeys keys store)) = Return false)
  /\ (forall earlier, storeKeys keys (storeKeys earlier store) = storeKeys keys store).
Proof.
  unfold hasKeys, getKeys. cbn [bind]. rewrite getKeys_oncomplete_storeKeys.
  destruct keys as [[|a ea] [|b eb] [|c ec] [|d ed]]; cbn.
  all: split; [|split].
  all: try (intros (? & ? & ? & ?); done).
  all: try (intros [? | [? | [? | ?]]]; done).
  all: try (intros _; split; [done|]).
  all: try (by rewrite bool_decide_eq_true_2 by by eexists).
  all: try (intros _; split; [done|];
            by rewrite bool_decide_eq_false_2 by by intros [? [=]]).
  all: intros earlier; apply storeKeys_overwrites.
Qed.

(** X15. The token in local storage.  After [setToken] the token is the
    one set, and the user counts as authenticated unless it is the empty
    string; after [clearToken] there is none and requests carry the header
    value 'Bearer null'; neither touches another entry of the storage. *)
Theorem token_life_cycle (localStorage : Api.Storage) (token : jsstring) :
  Api.getToken (Api.setToken token localStorage) = Some token
  /\ Api.isAuthenticated (Api.setToken token localStorage)
     = negb (bool_decide (token = []))
  /\ Api.authHeaders (Api.setToken token localStorage)
     = [("Authorization", js "Bearer " ++ token)]
  /\ Api.getToken (Api.clearToken localStorage) = None
  /\ Api.isAuthenticated (Api.clearToken localStorage) = false
  /\ Api.authHeaders (Api.clearToken localStorage)
     = [("Authorization", js "Bearer null")]
  /\ (forall key, key <> "jwt" ->
      Api.setToken token localStorage !! key = localStorage !! key
      /\ Api.clearToken localStorage !! key = localStorage !! key).
Proof.
  unfold Api.isAuthenticated, Api.authHeaders, Api.getToken, Api.setToken,
    Api.clearToken.
  rewrite lookup_insert_eq, lookup_delete_eq. cbv zeta.
  repeat split; try done.
  - by destruct token.
  - by rewrite lookup_insert_ne.
  - by rewrite lookup_delete_ne.
Qed.

(** ** [Login.tsx] and [AuthContext.tsx]: signing in and out *)

Ltac run_app :=
  cbv beta iota zeta delta
    [App.authenticate App.handleCredentialResponse App.login App.logout
     App.mount App.uploadPublicKey App.storeKeys_ App.hasKeys_
     App.setIsLoggedIn App.setHasKeyPair App.setLocalStorage App.setKeyStore
     App.post App.alert App.isLoggedIn App.hasKeyPair App.localStorage
     App.keyStore App.posted App.alerts
     then_ try_ settle pure update].

Section LoginFacts.
Context {P : Provider}.
Context (authGoogle : jsstring -> completion Api.AuthResult).
Context (accepts : list (string * jsstring) -> jsstring -> completion unit).

Lemma exportPublicKey_returns (pk : rsa_public P) (name : AlgorithmName)
  (us : list KeyUsage) :
  exists text,
    exportPublicKey (Build_CryptoKey name true us (RsaPublic pk)) = Return text
    /\ arrayBufferToBase64 (spki_encode P pk) = Return text.
Proof.
  eexists. unfold exportPublicKey. cbn.
  split; apply arrayBufferToBase64_returns.
Qed.

Lemma exportPrivateKey_returns (sk : rsa_private P) (name : AlgorithmName)
  (us : list KeyUsage) :
  exists text,
    exportPrivateKey (Build_CryptoKey name true us (RsaPrivate sk)) = Return text
    /\ arrayBufferToBase64 (pkcs8_encode P sk) = Return text.
Proof.
  eexists. unfold exportPrivateKey. cbn.
  split; apply arrayBufferToBase64_returns.
Qed.

(** The keys of a new user: the exports of the two generated pairs. *)
Lemma provision_returns :
  exists keys,
    provision (P := P) = Return keys
    /\ exportPublicKey (oaep_public (fst (rsa_oaep_keygen P)))
       = Return (encryptionPublicKey keys)
    /\ exportPrivateKey (oaep_private (snd (rsa_oaep_keygen P)))
       = Return (encryptionPrivateKey keys)
    /\ exportPublicKey (pss_public (fst (rsa_pss_keygen P)))
       = Return (signingPublicKey keys)
    /\ exportPrivateKey (pss_private (snd (rsa_pss_keygen P)))
       = Return (signingPrivateKey keys).
Proof.
  unfold provision.
  rewrite generateKeyPair_shape, generateSigningKeyPair_shape.
  cbn [bind publicKey privateKey].
  destruct (exportPublicKey_returns (fst (rsa_oaep_keygen P)) RSA_OAEP [encrypt])
    as (encPub & HencPub & _).
  destruct (exportPrivateKey_returns (snd (rsa_oaep_keygen P)) RSA_OAEP [decrypt])
    as (encPriv & HencPriv & _).
  destruct (exportPublicKey_returns (fst (rsa_pss_keygen P)) RSA_PSS [verify])
    as (sigPub & HsigPub & _).
  destruct (exportPrivateKey_returns (snd (rsa_pss_keygen P)) RSA_PSS [sign])
    as (sigPriv & HsigPriv & _).
  unfold oaep_public, oaep_private, pss_public, pss_private.
  rewrite HencPub, HencPriv, HsigPub, HsigPriv. cbn [bind].
  eexists. split; [reflexivity|]. done.
Qed.

(** The [try] block for a new user, up to the answer of the server. *)
Lemma authenticate_new_user (credential : jsstring) (result : Api.AuthResult)
  (store : ObjectStore) (keys : StoredKeys) (w0 : App.Browser) :
  authGoogle credential = Return result ->
  Api.isNewUser result = true ->
  App.keyStore w0 = Return store ->
  provision (P := P) = Return keys ->
  let headers :=
    Api.jsonAuthHeaders (Api.setToken (Api.token result) (App.localStorage w0)) in
  let bundle :=
    combinedPublicKey (encryptionPublicKey keys) (signingPublicKey keys) in
  let sent (hasKeyPair : bool) :=
    {| App.isLoggedIn := true;
       App.hasKeyPair := hasKeyPair;
       App.localStorage := Api.setToken (Api.token result) (App.localStorage w0);
       App.keyStore := Return (storeKeys keys store);
       App.posted := App.posted w0 ++ [(headers, bundle)];
       App.alerts := App.alerts w0 |} in
  App.authenticate (P := P) authGoogle accepts credential w0
  = match accepts headers bundle with
    | Return _ => (Return tt, sent true)
    | Throw e => (Throw e, sent (App.hasKeyPair w0))
    end.
Proof.
  intros Hauth Hnew Hstore Hkeys headers bundle sent.
  subst headers bundle sent.
  destruct provision_returns as (keys' & Hkeys' & HencPub & HencPriv & HsigPub & HsigPriv).
  rewrite Hkeys in Hkeys'. injection Hkeys' as <-.
  destruct w0 as [li hk ls ks po al]. cbn [App.keyStore] in Hstore. subst ks.
  run_app. forward Hauth. forward Hnew.
  forward (generateKeyPair_shape (P := P)).
  forward (generateSigningKeyPair_shape (P := P)).
  cbn [publicKey privateKey].
  forward HencPub. forward HencPriv. forward HsigPub. forward HsigPriv.
  destruct (accepts _ _) as [[]|e]; reflexivity.
Qed.

End LoginFacts.

Section LoginFacts2.
Context {P : Provider}.
Context (authGoogle : jsstring -> completion Api.AuthResult).
Context (accepts : list (string * jsstring) -> jsstring -> completion unit).

(** The [try] block for a user the server knows. *)
Lemma authenticate_returning_user (credential : jsstring) (result : Api.AuthResult)
  (w0 : App.Browser) :
  authGoogle credential = Return result ->
  Api.isNewUser result = false ->
  let signed_in (hasKeyPair : bool) :=
    {| App.isLoggedIn := true;
       App.hasKeyPair := hasKeyPair;
       App.localStorage := Api.setToken (Api.token result) (App.localStorage w0);
       App.keyStore := App.keyStore w0;
       App.posted := App.posted w0;
       App.alerts := App.alerts w0 |} in
  App.authenticate (P := P) authGoogle accepts credential w0
  = match hasKeys (App.keyStore w0) with
    | Return keysExist => (Return tt, signed_in keysExist)
    | Throw e => (Throw e, signed_in (App.hasKeyPair w0))
    end.
Proof.
  intros Hauth Hnew signed_in. subst signed_in.
  destruct w0 as [li hk ls ks po al].
  run_app. forward Hauth. forward Hnew.
  destruct (hasKeys ks) as [b|e]; reflexivity.
Qed.

Lemma handleCredentialResponse_unfold (credential : jsstring) (w0 : App.Browser) :
  App.handleCredentialResponse (P := P) authGoogle accepts credential w0
  = match App.authenticate (P := P) authGoogle accepts credential w0 with
    | (Return u, w) => (Return u, w)
    | (Throw _, w) =>
        (Return tt,
         {| App.isLoggedIn := App.isLoggedIn w;
            App.hasKeyPair := App.hasKeyPair w;
            App.localStorage := App.localStorage w;
            App.keyStore := App.keyStore w;
            App.posted := App.posted w;
            App.alerts := App.alerts w ++ ["Login failed. Please try again."] |})
    end.
Proof. reflexivity. Qed.

End LoginFacts2.

(** X16. The first sign-in of a new user whose key database opens, when
    the server accepts the key: the token received is stored and the user
    is logged in; the four exported keys of the two generated pairs are in
    the key store; one request went to the server, with the header
    'Authorization: Bearer' and that token, carrying the JSON bundle of the
    two public keys stored; [hasKeyPair] is set and no alert is shown. *)
Theorem first_login_provisions (P : Provider)
  (authGoogle : jsstring -> completion Api.AuthResult)
  (accepts : list (string * jsstring) -> jsstring -> completion unit)
  (credential : jsstring) (result : Api.AuthResult) (store : ObjectStore)
  (w0 : App.Browser) :
  authGoogle credential = Return result ->
  Api.isNewUser result = true ->
  App.keyStore w0 = Return store ->
  (forall headers bundle, returns (accepts headers bundle)) ->
  exists keys,
    provision (P := P) = Return keys
    /\ App.handleCredentialResponse (P := P) authGoogle accepts credential w0
       = (Return tt,
          {| App.isLoggedIn := true;
             App.hasKeyPair := true;
             App.localStorage :=
               Api.setToken (Api.token result) (App.localStorage w0);
             App.keyStore := Return (storeKeys keys store);
             App.posted :=
               App.posted w0
               ++ [([("Authorization", js "Bearer " ++ Api.token result);
                     ("Content-Type", js "application/json")],
                    combinedPublicKey (encryptionPublicKey keys)
                      (signingPublicKey keys))];
             App.alerts := App.alerts w0 |}).
Proof.
  intros Hauth Hnew Hstore Haccepts.
  destruct (provision_returns (P := P)) as (keys & Hkeys & _).
  exists keys. split; [done|].
  rewrite handleCredentialResponse_unfold.
  rewrite (authenticate_new_user _ _ _ _ _ _ _ Hauth Hnew Hstore Hkeys).
  destruct (Haccepts
              (Api.jsonAuthHeaders
                 (Api.setToken (Api.token result) (App.localStorage w0)))
              (combinedPublicKey (encryptionPublicKey keys) (signingPublicKey keys)))
    as [[] ->].
  unfold Api.jsonAuthHeaders, Api.authHeaders, Api.getToken, Api.setToken.
  rewrite lookup_insert_eq. reflexivity.
Qed.

(** X17. A failed sign-in is reported by one alert and not undone.  When
    the authentication itself is rejected, nothing else changes.  When it
    succeeded for a new user but the server rejects the key, the user stays
    logged in with the token stored and the four new keys in the key store,
    and [hasKeyPair] is left as it was; when the key database does not
    open, the user stays logged in and nothing is stored or posted. *)
Theorem failed_login_is_not_undone (P : Provider)
  (authGoogle : jsstring -> completion Api.AuthResult)
  (accepts : list (string * jsstring) -> jsstring -> completion unit)
  (credential : jsstring) (w0 : App.Browser) :
  let r := App.handleCredentialResponse (P := P) authGoogle accepts credential w0 in
  let alerted := App.alerts w0 ++ ["Login failed. Please try again."] in
  (forall e, authGoogle credential = Throw e ->
     r = (Return tt,
          {| App.isLoggedIn := App.isLoggedIn w0;
             App.hasKeyPair := App.hasKeyPair w0;
             App.localStorage := App.localStorage w0;
             App.keyStore := App.keyStore w0;
             App.posted := App.posted w0;
             App.alerts := alerted |}))
  /\ (forall result, authGoogle credential = Return result ->
      Api.isNewUser result = true ->
      (forall store keys e,
         App.keyStore w0 = Return store -> provision (P := P) = Return keys ->
         accepts
           (Api.jsonAuthHeaders
              (Api.setToken (Api.token result) (App.localStorage w0)))
           (combinedPublicKey (encryptionPublicKey keys) (signingPublicKey keys))
         = Throw e ->
         App.isLoggedIn (snd r) = true
         /\ Api.getToken (App.localStorage (snd r)) = Some (Api.token result)
         /\ App.keyStore (snd r) = Return (storeKeys keys store)
         /\ App.hasKeyPair (snd r) = App.hasKeyPair w0
         /\ App.alerts (snd r) = alerted)
      /\ (forall e, App.keyStore w0 = Throw e ->
          r = (Return tt,
               {| App.isLoggedIn := true;
                  App.hasKeyPair := App.hasKeyPair w0;
                  App.localStorage :=
                    Api.setToken (Api.token result) (App.localStorage w0);
                  App.keyStore := Throw e;
                  App.posted := App.posted w0;
                  App.alerts := alerted |}))).
Proof.
  intros r alerted. subst r alerted. split; [|intros result Hauth Hnew; split].
  - intros e Hauth. destruct w0 as [li hk ls ks po al].
    run_app. forward Hauth. reflexivity.
  - intros store keys e Hstore Hkeys Hreject.
    rewrite handleCredentialResponse_unfold.
    rewrite (authenticate_new_user _ _ _ _ _ _ _ Hauth Hnew Hstore Hkeys).
    rewrite Hreject. cbn [snd App.isLoggedIn App.localStorage App.keyStore
                          App.hasKeyPair App.alerts].
    unfold Api.getToken, Api.setToken. by rewrite lookup_insert_eq.
  - intros e Hstore.
    destruct (provision_returns (P := P))
      as (keys & _ & HencPub & HencPriv & HsigPub & HsigPriv).
    destruct w0 as [li hk ls ks po al]. cbn [App.keyStore] in Hstore. subst ks.
    run_app. forward Hauth. forward Hnew.
    forward (generateKeyPair_shape (P := P)).
    forward (generateSigningKeyPair_shape (P := P)).
    cbn [publicKey privateKey].
    forward HencPub. forward HencPriv. forward HsigPub. forward HsigPriv.
    reflexivity.
Qed.

(** X18. The sign-in of a user the server already knows generates nothing:
    the token is stored and the user logged in, the key store and the
    requests posted are as before, and [hasKeyPair] becomes what [hasKeys]
    answers, true exactly when the store holds the four keys, all
    non-empty. *)
Theorem returning_user_keeps_the_store (P : Provider)
  (authGoogle : jsstring -> completion Api.AuthResult)
  (accepts : list (string * jsstring) -> jsstring -> completion unit)
  (credential : jsstring) (result : Api.AuthResult) (store : ObjectStore)
  (w0 : App.Browser) :
  authGoogle credential = Return result ->
  Api.isNewUser result = false ->
  App.keyStore w0 = Return store ->
  exists keysExist,
    App.handleCredentialResponse (P := P) authGoogle accepts credential w0
    = (Return tt,
       {| App.isLoggedIn := true;
          App.hasKeyPair := keysExist;
          App.localStorage := Api.setToken (Api.token result) (App.localStorage w0);
          App.keyStore := Return store;
          App.posted := App.posted w0;
          App.alerts := App.alerts w0 |})
    /\ (keysExist = true <-> all_present_and_nonempty store).
Proof.
  intros Hauth Hnew Hstore.
  exists (bool_decide (is_Some (getKeys_oncomplete store))). split.
  - rewrite handleCredentialResponse_unfold.
    rewrite (authenticate_returning_user _ _ _ _ _ Hauth Hnew).
    rewrite Hstore. reflexivity.
  - rewrite bool_decide_eq_true. apply getKeys_oncomplete_Some.
Qed.

Lemma first_login_provisions_fresh :
  exists keys,
    provision (P := Toy.provider) = Return keys
    /\ App.handleCredentialResponse (P := Toy.provider)
         (fun _ => Return {| Api.token := js "t0"; Api.isNewUser := true;
                             Api.userId := js "u0" |})
         (fun _ _ => Return tt) (js "credential") App.fresh
       = (Return tt,
          {| App.isLoggedIn := true;
             App.hasKeyPair := true;
             App.localStorage := Api.setToken (js "t0") ∅;
             App.keyStore := Return (storeKeys keys ∅);
             App.posted :=
               [([("Authorization", js "Bearer t0");
                  ("Content-Type", js "application/json")],
                 combinedPublicKey (encryptionPublicKey keys)
                   (signingPublicKey keys))];
             App.alerts := [] |}).
Proof.
  apply (first_login_provisions Toy.provider
           (fun _ => Return {| Api.token := js "t0"; Api.isNewUser := true;
                               Api.userId := js "u0" |})
           (fun _ _ => Return tt) (js "credential") _ ∅ App.fresh
           eq_refl eq_refl eq_refl).
  intros headers bundle. by exists tt.
Defined.

Lemma returning_user_keeps_the_store_fresh :
  exists keysExist,
    App.handleCredentialResponse (P := Toy.provider)
      (fun _ => Return {| Api.token := js "t0"; Api.isNewUser := false;
                          Api.userId := js "u0" |})
      (fun _ _ => Return tt) (js "credential") App.fresh
    = (Return tt,
       {| App.isLoggedIn := true;
          App.hasKeyPair := keysExist;
          App.localStorage := Api.setToken (js "t0") ∅;
          App.keyStore := Return ∅;
          App.posted := [];
          App.alerts := [] |})
    /\ (keysExist = true <-> all_present_and_nonempty ∅).
Proof.
  apply (returning_user_keeps_the_store Toy.provider
           (fun _ => Return {| Api.token := js "t0"; Api.isNewUser := false;
                               Api.userId := js "u0" |})
           (fun _ _ => Return tt) (js "credential") _ ∅ App.fresh
           eq_refl eq_refl eq_refl).
Defined.

(** X19. [logout] forgets the keys for good.  After it the user is not
    authenticated, both flags are off and [getKeys] resolves to null, so
    that [handleDownload] and [handleSend] stop with 'Local keys not
    found'; and signing in again as a user the server knows brings no keys
    back: the store stays empty and [hasKeyPair] stays off. *)
Theorem logout_forgets_the_keys (P : Provider) (w0 : App.Browser)
  (store : ObjectStore) :
  App.keyStore w0 = Return store ->
  let w := snd (App.logout w0) in
  App.isLoggedIn w = false
  /\ App.hasKeyPair w = false
  /\ Api.isAuthenticated (App.localStorage w) = false
  /\ getKeys (App.keyStore w) = Return None
  /\ (forall JSON_parse downloadFile file (c0 : ReceiveFiles.Component (P := P)),
        let c := snd (ReceiveFiles.handleDownload JSON_parse (App.keyStore w)
                        downloadFile file c0) in
        ReceiveFiles.error c = Some (Error "Local keys not found")
        /\ ReceiveFiles.log c = ReceiveFiles.log c0)
  /\ (forall JSON_parse sendFile selectedFile receiverData
        (c0 : SendFile.Component (P := P)),
        SendFile.selectedFile c0 = Some selectedFile ->
        SendFile.receiverData c0 = Some receiverData ->
        let c := snd (SendFile.handleSend JSON_parse (App.keyStore w) sendFile c0) in
        SendFile.error c = Some (Error "Local keys not found")
        /\ SendFile.log c = SendFile.log c0)
  /\ (forall authGoogle accepts credential result,
        authGoogle credential = Return result ->
        Api.isNewUser result = false ->
        let w' := snd (App.handleCredentialResponse (P := P) authGoogle accepts
                         credential w) in
        App.isLoggedIn w' = true
        /\ App.hasKeyPair w' = false
        /\ getKeys (App.keyStore w') = Return None).
Proof.
  intros Hstore w. subst w.
  destruct w0 as [li hk ls ks po al]. cbn [App.keyStore] in Hstore. subst ks.
  assert (Hlogout : snd (App.logout
            {| App.isLoggedIn := li; App.hasKeyPair := hk; App.localStorage := ls;
               App.keyStore := Return store; App.posted := po; App.alerts := al |})
          = {| App.isLoggedIn := false; App.hasKeyPair := false;
               App.localStorage := Api.clearToken ls;
               App.keyStore := Return (clearKeys store);
               App.posted := po; App.alerts := al |}) by reflexivity.
  rewrite Hlogout.
  cbn [App.isLoggedIn App.hasKeyPair App.localStorage App.keyStore].
  assert (Hnone : forall keys,
            getKeys (Return (clearKeys store)) <> Return (Some keys)).
  { intros keys H. vm_compute in H. discriminate H. }
  split; [done|]. split; [done|].
  split; [unfold Api.isAuthenticated, Api.getToken, Api.clearToken;
          by rewrite lookup_delete_eq|].
  split; [reflexivity|].
  split; [|split].
  - intros JSON_parse downloadFile file c0.
    destruct (stop_without_local_keys P JSON_parse _ Hnone) as [Hd _].
    rewrite Hd. done.
  - intros JSON_parse sendFile selectedFile receiverData c0 Hf Hr.
    destruct (stop_without_local_keys P JSON_parse _ Hnone) as [_ Hs].
    rewrite (Hs sendFile _ _ c0 Hf Hr). done.
  - intros authGoogle accepts credential result Hauth Hnew.
    rewrite handleCredentialResponse_unfold.
    rewrite (authenticate_returning_user _ _ _ _ _ Hauth Hnew).
    cbn [App.keyStore]. done.
Qed.

Lemma logout_forgets_the_keys_after_first_login :
  getKeys
    (App.keyStore
       (snd (App.logout
               (snd (App.handleCredentialResponse (P := Toy.provider)
                       (fun _ => Return {| Api.token := js "t0";
                                           Api.isNewUser := true;
                                           Api.userId := js "u0" |})
                       (fun _ _ => Return tt) (js "credential") App.fresh)))))
  = Return None.
Proof.
  refine (proj1 (proj2 (proj2 (proj2
            (logout_forgets_the_keys Toy.provider _ _ _))))).
  vm_compute. reflexivity.
Defined.

(** ** [SendFile.tsx]: the receiver lookup and the reset *)

Lemma trim_start_suffix (s : jsstring) :
  exists front,
    s = front ++ SendForm.trim_start s
    /\ Forall (fun c => SendForm.is_white_space c = true) front.
Proof.
  induction s as [|c s (front & Hs & Hfront)]; [by exists []|].
  cbn [SendForm.trim_start]. destruct (SendForm.is_white_space c) eqn:Hc.
  - exists (c :: front). split; [by rewrite <- app_comm_cons, <- Hs|].
    by constructor.
  - by exists [].
Qed.

Lemma trim_start_head (s : jsstring) (c : N) (rest : jsstring) :
  SendForm.trim_start s = c :: rest -> SendForm.is_white_space c = false.
Proof.
  induction s as [|a s IH]; [done|]. cbn [SendForm.trim_start].
  destruct (SendForm.is_white_space a) eqn:Ha; [done|]. by intros [= <- _].
Qed.

(** What [trim] returns has no white space at either end. *)
Lemma trim_ends (s : jsstring) :
  (forall c rest, SendForm.trim s = c :: rest -> SendForm.is_white_space c = false)
  /\ (forall front c, SendForm.trim s = front ++ [c] ->
      SendForm.is_white_space c = false).
Proof.
  unfold SendForm.trim.
  destruct (trim_start_suffix (rev (SendForm.trim_start s))) as (front & Hs & _).
  split.
  - intros c rest Ht.
    apply (f_equal (@rev N)) in Hs. rewrite rev_involutive, rev_app_distr in Hs.
    rewrite Ht in Hs. simpl in Hs. by apply trim_start_head in Hs.
  - intros front' c Ht. apply (f_equal (@rev N)) in Ht.
    rewrite rev_involutive, rev_app_distr in Ht. simpl in Ht.
    by apply trim_start_head in Ht.
Qed.

Ltac run_form :=
  cbv beta iota zeta delta
    [SendForm.handleReset SendForm.lookup SendForm.on_component
     SendForm.setReceiverEmail SendForm.setReceiverData SendForm.setSelectedFile
     SendForm.receiverEmail SendForm.component SendForm.lookups
     SendFile.setState SendFile.setError SendFile.setProgress
     SendFile.state SendFile.error SendFile.progress SendFile.selectedFile
     SendFile.receiverData SendFile.log
     then_ try_ settle pure update].

(** X20. [handleLookupReceiver] asks the server only for an address that is
    not empty and has no white space at either end: for an email field that
    is blank it sets the error 'Please enter receiver email' and changes
    nothing else; otherwise it looks up the trimmed text once, and ends with
    the receiver set and the state [select] when the server answers, or
    with the exception as the error when it does not.  It never throws. *)
Theorem lookup_asks_for_a_trimmed_address (P : Provider)
  (getReceiverPublicKey : jsstring -> completion SendFile.ReceiverData)
  (w : SendForm.Form (P := P)) :
  let r := SendForm.handleLookupReceiver getReceiverPublicKey w in
  let email := SendForm.trim (SendForm.receiverEmail w) in
  let c := SendForm.component w in
  let ended state receiverData error :=
    {| SendForm.receiverEmail := SendForm.receiverEmail w;
       SendForm.component :=
         {| SendFile.state := state; SendFile.receiverData := receiverData;
            SendFile.selectedFile := SendFile.selectedFile c;
            SendFile.error := error; SendFile.progress := "";
            SendFile.log := SendFile.log c |};
       SendForm.lookups := SendForm.lookups w ++ [email] |} in
  fst r = Return tt
  /\ (email = [] ->
      snd r
      = {| SendForm.receiverEmail := SendForm.receiverEmail w;
           SendForm.component :=
             {| SendFile.state := SendFile.state c;
                SendFile.receiverData := SendFile.receiverData c;
                SendFile.selectedFile := SendFile.selectedFile c;
                SendFile.error := Some (Error "Please enter receiver email");
                SendFile.progress := SendFile.progress c;
                SendFile.log := SendFile.log c |};
           SendForm.lookups := SendForm.lookups w |})
  /\ (email <> [] ->
      snd r
      = match getReceiverPublicKey email with
        | Return data => ended SendFile.st_select (Some data) None
        | Throw e => ended (SendFile.state c) (SendFile.receiverData c) (Some e)
        end)
  /\ (forall asked, asked ∈ SendForm.lookups (snd r) ->
      asked ∈ SendForm.lookups w
      \/ (asked <> []
          /\ (forall a rest, asked = a :: rest -> SendForm.is_white_space a = false)
          /\ (forall front a, asked = front ++ [a] ->
              SendForm.is_white_space a = false))).
Proof.
  intros r email c ended. subst r email c ended.
  destruct w as [email c lookups]. destruct c as [st rd sf err pr lg].
  unfold SendForm.handleLookupReceiver.
  cbn [SendForm.receiverEmail SendForm.component SendForm.lookups
       SendFile.state SendFile.receiverData SendFile.selectedFile
       SendFile.progress SendFile.log].
  destruct (trim_ends email) as [Hhead Hlast].
  destruct (SendForm.trim email) as [|a rest] eqn:Ht.
  - split; [done|]. split; [done|]. split; [done|].
    intros asked Hin. by left.
  - run_form.
    destruct (getReceiverPublicKey (a :: rest)) as [data|e].
    all: cbn [fst snd SendForm.lookups].
    all: split; [done|]; split; [done|]; split; [done|].
    all: intros asked Hin; apply elem_of_app in Hin as [Hin|Hin]; [by left|].
    all: apply elem_of_cons in Hin as [->|Hin]; [|by apply elem_of_nil in Hin].
    all: right; split; [done|]; split; [apply Hhead | apply Hlast].
Qed.

(** X21. [handleReset] brings the form back to where it started, keeping
    only the record of what was done: whatever the form held, after it the
    email field is empty, no receiver and no file are set, the state is
    [lookup] and no error or progress is shown; [handleSend] then does
    nothing at all, and [handleLookupReceiver] asks for an email without
    calling the server. *)
Theorem reset_starts_over (P : Provider) (JSON_parse : JSON_parser)
  (db : completion ObjectStore)
  (sendFile : SendFilePayload.t -> completion (jsstring * jsstring))
  (getReceiverPublicKey : jsstring -> completion SendFile.ReceiverData)
  (w : SendForm.Form (P := P)) :
  let cleared :=
    {| SendForm.receiverEmail := [];
       SendForm.component :=
         {| SendFile.state := SendFile.st_lookup;
            SendFile.receiverData := None;
            SendFile.selectedFile := None;
            SendFile.error := None;
            SendFile.progress := "";
            SendFile.log := SendFile.log (SendForm.component w) |};
       SendForm.lookups := SendForm.lookups w |} in
  SendForm.handleReset w = (Return tt, cleared)
  /\ SendForm.on_component (SendFile.handleSend JSON_parse db sendFile) cleared
     = (Return tt, cleared)
  /\ SendForm.lookups
       (snd (SendForm.handleLookupReceiver getReceiverPublicKey cleared))
     = SendForm.lookups w
  /\ SendFile.error
       (SendForm.component
          (snd (SendForm.handleLookupReceiver getReceiverPublicKey cleared)))
     = Some (Error "Please enter receiver email").
Proof.
  intros cleared. subst cleared.
  destruct w as [email c lookups]. destruct c as [st rd sf err pr lg].
  repeat split.
Qed.
